(** * Sentiment pipeline of Lab_05/IT21184208_Q3.ipynb

    A shallow embedding of the text-to-tensor preprocessing functions of the
    notebook ([load_data], [clean_text], [preprocess_text], [encode_labels])
    together with the library calls they are made of: Python's [re.sub] and
    [str.strip], Keras' [Tokenizer] and [pad_sequences], pandas'
    [read_csv] with its policy for bad lines, [DataFrame.dropna], column
    selection and [Series.map].

    Python values are modelled as follows.
    - a [str] is the list of its Unicode code points;
    - an [int] is a [Z];
    - a raised exception is the [Raise] branch of [result];
    - an insertion-ordered dictionary ([OrderedDict], [dict]) is an
      association list, in insertion order;
    - a missing value (pandas' NaN) is [None]. *)

From Stdlib Require Import String Ascii.
From Stdlib Require Import List ZArith NArith Lia Bool Permutation Sorted.
Import ListNotations.
Open Scope list_scope.

(* ================================================================== *)
(** * Part I: the program                                              *)
(* ================================================================== *)

(** ** Exceptions *)

Inductive exn : Type :=
| ValueError
| KeyError (key : string)
| FileNotFoundError
| EmptyDataError
| ParserError.

Inductive result (A : Type) : Type :=
| Ok (a : A)
| Raise (e : exn).

Arguments Ok {A} a.
Arguments Raise {A} e.

Definition bind {A B : Type} (c : result A) (k : A -> result B) : result B :=
  match c with
  | Ok a => k a
  | Raise e => Raise e
  end.

Notation "x <- c ;; k" := (bind c (fun x => k))
  (at level 61, c at next level, right associativity).

Fixpoint mapM {A B : Type} (f : A -> result B) (l : list A) : result (list B) :=
  match l with
  | [] => Ok []
  | x :: xs => y <- f x ;; ys <- mapM f xs ;; Ok (y :: ys)
  end.

(** ** Python strings *)

Module Text.

(** A character is its code point. *)
Definition char : Type := N.
Definition str : Type := list char.

(** The [str] of an ASCII literal. *)
Definition of_string (s : string) : str :=
  map N_of_ascii (list_ascii_of_string s).

Definition space : char := 32%N.

Definition between (lo hi c : N) : bool := (lo <=? c)%N && (c <=? hi)%N.

(** The character class [A-Za-z]. *)
Definition is_ascii_letter (c : char) : bool :=
  between 65 90 c || between 97 122 c.

(** The character class [\s] of a [str] pattern, which is also the set
    [str.strip()] removes: the code points for which [str.isspace] holds. *)
Definition isspace (c : char) : bool :=
  between 9 13 c || between 28 32 c
  || (c =? 133)%N || (c =? 160)%N || (c =? 5760)%N
  || between 8192 8202 c || (c =? 8232)%N || (c =? 8233)%N
  || (c =? 8239)%N || (c =? 8287)%N || (c =? 12288)%N.

Definition str_eq_dec : forall a b : str, {a = b} + {a <> b} :=
  list_eq_dec N.eq_dec.

Definition str_eqb (a b : str) : bool :=
  if str_eq_dec a b then true else false.

Definition nonempty (w : str) : bool :=
  match w with [] => false | _ :: _ => true end.

(** [s.lstrip()], [s.rstrip()] and [s.strip()] without argument. *)
Fixpoint lstrip (s : str) : str :=
  match s with
  | [] => []
  | c :: t => if isspace c then lstrip t else s
  end.

Fixpoint rstrip (s : str) : str :=
  match s with
  | [] => []
  | c :: t =>
      match rstrip t with
      | [] => if isspace c then [] else [c]
      | r => c :: r
      end
  end.

Definition strip (s : str) : str := rstrip (lstrip s).

(** [s.split(sep)] for a one-character separator, cut at every character
    satisfying [p]: the pieces between separators, empty pieces included,
    so that the empty string gives one empty piece. *)
Fixpoint fields (p : char -> bool) (s : str) : list str :=
  match s with
  | [] => [[]]
  | c :: t =>
      if p c then [] :: fields p t
      else match fields p t with
           | w :: ws => (c :: w) :: ws
           | [] => [[c]]
           end
  end.

(** [sep.join(ws)] for the separator [" "]. *)
Definition join_space (ws : list str) : str :=
  match ws with
  | [] => []
  | w :: rest => w ++ concat (map (cons space) rest)
  end.

End Text.

Import Text.

(** ** The notebook's normalizer *)

(** [re.sub(r"[^A-Za-z\s]", "", text)]: every match is one character that is
    neither an ASCII letter nor white space, and it is replaced by nothing. *)
Definition sub_non_letters (text : str) : str :=
  filter (fun c => is_ascii_letter c || isspace c) text.

(** [re.sub(r"\s+", " ", text)]: scanning from the left, every maximal run of
    white space is one match and is replaced by one space. [in_run] tells that
    the character before the current one belongs to the run being replaced. *)
Fixpoint sub_spaces_from (in_run : bool) (text : str) : str :=
  match text with
  | [] => []
  | c :: t =>
      if isspace c
      then if in_run then sub_spaces_from true t
           else space :: sub_spaces_from true t
      else c :: sub_spaces_from false t
  end.

Definition sub_spaces (text : str) : str := sub_spaces_from false text.

(** <<
    def clean_text(text):
        text = re.sub(r"[^A-Za-z\s]", "", text)
        text = re.sub(r"\s+", " ", text).strip()
        return text
    >> *)
Definition clean_text (text : str) : str :=
  let text := sub_non_letters text in
  let text := strip (sub_spaces text) in
  text.

(** The normalizer as the specification words it: delete what is neither a
    letter nor white space, cut the rest into its words (the maximal pieces
    free of white space) and put the words together with one space between
    neighbours. *)
Definition words (s : str) : list str := filter nonempty (fields isspace s).

Definition normalize_spec (text : str) : str :=
  join_space (words (filter (fun c => is_ascii_letter c || isspace c) text)).

(** ** Keras: [text_to_word_sequence], [Tokenizer], [pad_sequences] *)

Module Keras.

(** The default [filters] of a [Tokenizer]: the ASCII punctuation except
    the apostrophe, and with it the tabulation and the line feed. *)
Definition in_filters (c : char) : bool :=
  (c =? 9)%N || (c =? 10)%N || between 33 38 c || between 40 47 c
  || between 58 64 c || between 91 96 c || between 123 126 c.

(** [str.lower] on one character of ASCII, the code points below 128:
    the capitals [A] to [Z] go to their small letters and nothing else
    moves. [preprocess_text] hands the tokenizer the output of [clean_text]
    only, whose characters are ASCII letters and spaces. Beyond ASCII
    [str.lower] is another function, which this one does not give: what
    follows speaks of the tokens of ASCII texts only. *)
Definition lower (c : char) : char :=
  if between 65 90 c then (c + 32)%N else c.

(** <<
    def text_to_word_sequence(input_text, filters=..., lower=True, split=" "):
        if lower: input_text = input_text.lower()
        translate_dict = {c: split for c in filters}
        input_text = input_text.translate(str.maketrans(translate_dict))
        seq = input_text.split(split)
        return [i for i in seq if i]
    >> *)
Definition text_to_word_sequence (input_text : str) : list str :=
  let input_text := map lower input_text in
  let input_text :=
    map (fun c => if in_filters c then space else c) input_text in
  let seq := fields (fun c => (c =? space)%N) input_text in
  filter nonempty seq.

(** [d.get(k)] on a dictionary kept as an association list. *)
Fixpoint get {V : Type} (k : str) (d : list (str * V)) : option V :=
  match d with
  | [] => None
  | (k', v) :: rest => if str_eqb k' k then Some v else get k rest
  end.

(** One round of the counting loop of [fit_on_texts]:
    <<
    if w in self.word_counts: self.word_counts[w] += 1
    else: self.word_counts[w] = 1
    >>
    A new key goes to the end of the [OrderedDict]; an old key keeps its
    place. *)
Fixpoint count_word (w : str) (wc : list (str * Z)) : list (str * Z) :=
  match wc with
  | [] => [(w, 1%Z)]
  | (k, n) :: rest =>
      if str_eqb k w then (k, (n + 1)%Z) :: rest
      else (k, n) :: count_word w rest
  end.

Definition count_words (ws : list str) (wc : list (str * Z))
  : list (str * Z) :=
  fold_left (fun wc w => count_word w wc) ws wc.

(** [wcounts.sort(key=lambda x: x[1], reverse=True)]: Python's sort is
    stable, also under [reverse=True], so entries of equal count keep the
    order they have in [word_counts]. *)
Fixpoint insert_desc (x : str * Z) (l : list (str * Z)) : list (str * Z) :=
  match l with
  | [] => [x]
  | y :: rest =>
      if (snd y <=? snd x)%Z then x :: y :: rest
      else y :: insert_desc x rest
  end.

Definition sort_desc (l : list (str * Z)) : list (str * Z) :=
  fold_right insert_desc [] l.

(** [range(1, n + 1)] *)
Definition range1 (n : nat) : list Z := map Z.of_nat (seq 1 n).

(** The attributes of a [Tokenizer] that [preprocess_text] reads or
    writes. [oov_token] is [None], [char_level] is [False] and [analyzer]
    is [None] throughout, as [Tokenizer(num_words=max_words)] sets them;
    the document statistics ([word_docs], [index_docs], [document_count],
    [index_word]) are written by [fit_on_texts] and read by nothing
    here. *)
Record Tokenizer : Type := {
  num_words : Z;
  word_counts : list (str * Z);
  word_index : list (str * Z)
}.

(** [Tokenizer(num_words=n)] *)
Definition Tokenizer_init (n : Z) : Tokenizer :=
  {| num_words := n; word_counts := []; word_index := [] |}.

(** <<
    def fit_on_texts(self, texts):
        for text in texts:
            seq = text_to_word_sequence(text, ...)
            for w in seq: (count w)
        wcounts = list(self.word_counts.items())
        wcounts.sort(key=lambda x: x[1], reverse=True)
        sorted_voc = []                      # oov_token is None
        sorted_voc.extend(wc[0] for wc in wcounts)
        self.word_index = dict(zip(sorted_voc,
                                   list(range(1, len(sorted_voc) + 1))))
    >> *)
Definition fit_on_texts (self : Tokenizer) (texts : list str) : Tokenizer :=
  let wc :=
    fold_left (fun wc text => count_words (text_to_word_sequence text) wc)
              texts (word_counts self) in
  let wcounts := sort_desc wc in
  let sorted_voc := map fst wcounts in
  {| num_words := num_words self;
     word_counts := wc;
     word_index := combine sorted_voc (range1 (length sorted_voc)) |}.

(** One text of [texts_to_sequences]:
    <<
    vect = []
    for w in seq:
        i = self.word_index.get(w)
        if i is not None:
            if num_words and i >= num_words:
                pass                         # oov_token is None
            else:
                vect.append(i)
    >>
    [num_words and ...] is false when [num_words] is [0]. *)
Definition keep_index (self : Tokenizer) (w : str) : list Z :=
  match get w (word_index self) with
  | Some i =>
      if negb (num_words self =? 0)%Z && (num_words self <=? i)%Z
      then []
      else [i]
  | None => []
  end.

Definition text_to_sequence (self : Tokenizer) (text : str) : list Z :=
  flat_map (keep_index self) (text_to_word_sequence text).

Definition texts_to_sequences (self : Tokenizer) (texts : list str)
  : list (list Z) :=
  map (text_to_sequence self) texts.

(** The bounds of Python's slice [s[start:]] on a sequence of length [n]. *)
Definition slice_start (n start : Z) : Z :=
  if (start <? 0)%Z then Z.max 0 (start + n) else Z.min start n.

(** [s[start:]] *)
Definition slice_from {A : Type} (s : list A) (start : Z) : list A :=
  skipn (Z.to_nat (slice_start (Z.of_nat (length s)) start)) s.

(** [row[start:] = v] on a one-dimensional NumPy array: [v] must have the
    length of the slice, or one element, which is then repeated; anything
    else cannot be broadcast and raises [ValueError]. *)
Definition assign_from (row : list Z) (start : Z) (v : list Z)
  : result (list Z) :=
  let first := slice_start (Z.of_nat (length row)) start in
  let width := (Z.of_nat (length row) - first)%Z in
  if (Z.of_nat (length v) =? width)%Z
  then Ok (firstn (Z.to_nat first) row ++ v)
  else match v with
       | [a] => Ok (firstn (Z.to_nat first) row ++ repeat a (Z.to_nat width))
       | _ => Raise ValueError
       end.

(** One row of [pad_sequences], with [padding="pre"], [truncating="pre"]
    and [value=0.0], the defaults:
    <<
    x = np.full((num_samples, maxlen), value, dtype="int32")
    for idx, s in enumerate(sequences):
        if not len(s): continue
        trunc = s[-maxlen:]
        trunc = np.asarray(trunc, dtype="int32")
        x[idx, -len(trunc):] = trunc
    >>
    The entries of [s] are word indices, at most the number of distinct
    words of the corpus; the model takes them to fit the 32 bits of the
    array's cells. *)
Definition pad_row (maxlen : Z) (s : list Z) : result (list Z) :=
  let x := repeat 0%Z (Z.to_nat maxlen) in
  match s with
  | [] => Ok x
  | _ :: _ =>
      let trunc := slice_from s (- maxlen) in
      assign_from x (- Z.of_nat (length trunc)) trunc
  end.

(** [np.full] refuses a negative dimension with [ValueError]. *)
Definition pad_sequences (sequences : list (list Z)) (maxlen : Z)
  : result (list (list Z)) :=
  if (maxlen <? 0)%Z then Raise ValueError
  else mapM (pad_row maxlen) sequences.

End Keras.

Import Keras.

(** ** The notebook's vectorizer *)

(** <<
    def preprocess_text(reviews, max_words=5000, max_len=200):
        reviews = [clean_text(review) for review in reviews]
        tokenizer = Tokenizer(num_words=max_words)
        tokenizer.fit_on_texts(reviews)
        sequences = tokenizer.texts_to_sequences(reviews)
        padded_sequences = pad_sequences(sequences, maxlen=max_len)
        return padded_sequences, tokenizer
    >> *)
Definition preprocess_text (reviews : list str) (max_words max_len : Z)
  : result (list (list Z) * Tokenizer) :=
  let reviews := map clean_text reviews in
  let tokenizer := Tokenizer_init max_words in
  let tokenizer := fit_on_texts tokenizer reviews in
  let sequences := texts_to_sequences tokenizer reviews in
  padded_sequences <- pad_sequences sequences max_len ;;
  Ok (padded_sequences, tokenizer).

Definition default_max_words : Z := 5000.
Definition default_max_len : Z := 200.

(** The two phases the specification names. [fit] is the tokenizer
    [preprocess_text] builds from a corpus; [transform] is what it then does
    to texts with a tokenizer: [texts_to_sequences] followed by
    [pad_sequences]. *)
Definition fit (corpus : list str) (max_words : Z) : Tokenizer :=
  fit_on_texts (Tokenizer_init max_words) (map clean_text corpus).

Definition transform (tokenizer : Tokenizer) (max_len : Z) (texts : list str)
  : result (list (list Z)) :=
  pad_sequences (texts_to_sequences tokenizer texts) max_len.

(** ** pandas: frames, [dropna], column selection, [Series.map] *)

Module Pandas.

(** A cell is missing (NaN) or holds a value, which is given as the text
    it was read from. The model tells a present cell from a missing one and
    one text from another; it does not tell the string of a column of
    strings from the number of a column that pandas types as numbers. *)
Definition cell : Type := option str.

Definition notna {A : Type} (c : option A) : bool :=
  match c with Some _ => true | None => false end.

(** A frame: its column labels and its rows, each with one cell per
    column. *)
Record DataFrame : Type := {
  columns : list string;
  rows : list (list cell)
}.

(** Every row has one cell per column. *)
Definition rectangular (df : DataFrame) : Prop :=
  Forall (fun r => length r = length (columns df)) (rows df).

(** [df.dropna(inplace=True)]: with the defaults [axis=0] and [how="any"],
    a row goes as soon as one of its cells is missing, whatever the
    column. *)
Definition dropna (df : DataFrame) : DataFrame :=
  {| columns := columns df;
     rows := filter (forallb notna) (rows df) |}.

Fixpoint index_of (name : string) (cols : list string) : option nat :=
  match cols with
  | [] => None
  | c :: rest =>
      if String.eqb c name then Some 0%nat
      else option_map S (index_of name rest)
  end.

(** [df[name]]: the column as a series, or [KeyError]. *)
Definition getitem (df : DataFrame) (name : string) : result (list cell) :=
  match index_of name (columns df) with
  | Some j => Ok (map (fun r => nth j r None) (rows df))
  | None => Raise (KeyError name)
  end.

(** [series.map(d).values] for a dictionary [d]: a value that is no key of
    [d] gives a missing value, and raises nothing. *)
Definition Series_map (d : list (str * Z)) (series : list cell)
  : list (option Z) :=
  map (fun c => match c with
                | Some label => get label d
                | None => None
                end) series.

End Pandas.

Import Pandas.

(** ** The notebook's ingestor and label encoder *)

Section Ingestor.

(** [pd.read_csv(path, engine='python', on_bad_lines='skip')] on the files
    at hand: the frame parsed from the file, in which the parser has
    already left out the lines it counts as bad, or the exception it
    raises ([FileNotFoundError] without a file, [EmptyDataError] for a
    file without a header line). *)
Variable read_csv : string -> result DataFrame.

(** <<
    def load_data(file_path):
        df = pd.read_csv(file_path, engine='python', on_bad_lines='skip')
        df.dropna(inplace=True)
        return df['review'], df['sentiment']
    >> *)
Definition load_data (file_path : string)
  : result (list cell * list cell) :=
  df <- read_csv file_path ;;
  let df := dropna df in
  review <- getitem df "review" ;;
  sentiment <- getitem df "sentiment" ;;
  Ok (review, sentiment).

End Ingestor.

Definition positive : str := of_string "positive".
Definition negative : str := of_string "negative".

(** <<
    def encode_labels(sentiments):
        sentiments = sentiments.map({'positive': 1, 'negative': 0}).values
        return sentiments
    >> *)
Definition encode_labels (sentiments : list cell) : result (list (option Z)) :=
  let sentiments := Series_map [(positive, 1%Z); (negative, 0%Z)] sentiments in
  Ok sentiments.



(** ** pandas: [read_csv] with the Python engine *)

Module Reader.

(** The values of [on_bad_lines]. *)
Inductive bad_line_policy : Type :=
| error
| warn
| skip.

(** A file as the reader has it once the file is opened, decoded and cut
    into lines and fields by the [csv] module, the blank lines left out.
    [names] are the column labels read from the header line. [index_width]
    is the number of leading fields of a data line that the reader takes for
    the row index, not for a column: 0 unless the first data lines are wider
    than the header. [lines] are the data lines, each the list of its fields,
    a field that reads as a missing value being [None]. *)
Record table : Type := {
  names : list string;
  index_width : nat;
  lines : list (list cell)
}.

(** The number of fields the reader expects of a data line. *)
Definition width (t : table) : nat := index_width t + length (names t).

(** A bad line: it has more fields than expected. *)
Definition bad_line (t : table) (line : list cell) : bool :=
  (width t <? length line)%nat.

(** A line with fewer fields than expected is filled with missing values. *)
Definition fill (t : table) (line : list cell) : list cell :=
  line ++ repeat None (width t - length line).

(** The lines made rows. With [on_bad_lines='error'], the default, a bad
    line stops the reader with [ParserError]; with ['warn'] and ['skip'] the
    bad lines are left out and the reader goes on. *)
Definition rows_to_cols (on_bad_lines : bad_line_policy) (t : table)
  : result (list (list cell)) :=
  match on_bad_lines with
  | error =>
      if existsb (bad_line t) (lines t) then Raise ParserError
      else Ok (map (fill t) (lines t))
  | warn | skip =>
      Ok (map (fill t) (filter (fun line => negb (bad_line t line)) (lines t)))
  end.

(** [pd.read_csv(path, engine='python', on_bad_lines=...)] over the files
    [files]: what opening a path gives is an exception
    ([FileNotFoundError] where there is no file, another one for a file that
    cannot be read), [None] for a file without a line to take as header, or
    a table. The fields of the index leave the rows of the frame. *)
Definition read_csv (files : string -> result (option table))
           (on_bad_lines : bad_line_policy) (path : string)
  : result DataFrame :=
  content <- files path ;;
  match content with
  | None => Raise EmptyDataError
  | Some t =>
      rows <- rows_to_cols on_bad_lines t ;;
      Ok {| columns := names t;
            rows := map (skipn (index_width t)) rows |}
  end.

End Reader.



(** ** Concrete inputs *)

Module Sample.

Definition a_a_b : str := of_string "a a b".
Definition b_c : str := of_string "b c".
Definition corpus : list str := [a_a_b; b_c].

Definition a_b : str := of_string "a b".
Definition good_good_movie : str := of_string "good good movie".
Definition no_letters : str := of_string "12:30 !?".

Definition neutral : str := of_string "neutral".

Definition a : str := of_string "a".
Definition b : str := of_string "b".
Definition c : str := of_string "c".



(** A disk whose file has three data lines, the second without a label. *)
Definition three_lines : DataFrame :=
  {| columns := ["review"; "sentiment"]%string;
     rows := [ [Some (of_string "great movie"); Some positive];
               [Some (of_string "so so"); None];
               [Some (of_string "bad film!!"); Some negative] ] |}.

Definition disk3 (path : string) : result DataFrame :=
  if String.eqb path "IMDB Dataset.csv" then Ok three_lines
  else Raise FileNotFoundError.

(** Files: one with the header line and nothing else; one with five data
    lines, of which the second has a field too many, the third a field too
    few and the fourth no label; one with other column labels. *)
Definition header_only_table : Reader.table :=
  {| Reader.names := ["review"; "sentiment"]%string;
     Reader.index_width := 0;
     Reader.lines := [] |}.

Definition untidy_table : Reader.table :=
  {| Reader.names := ["review"; "sentiment"]%string;
     Reader.index_width := 0;
     Reader.lines :=
       [ [Some (of_string "great movie"); Some positive];
         [Some (of_string "too"); Some (of_string "many"); Some positive];
         [Some (of_string "short")];
         [Some (of_string "so so"); None];
         [Some (of_string "bad film!!"); Some negative] ] |}.

Definition files (path : string) : result (option Reader.table) :=
  if String.eqb path "header only.csv" then Ok (Some header_only_table)
  else if String.eqb path "untidy.csv" then Ok (Some untidy_table)
  else if String.eqb path "empty.csv" then Ok None
  else Raise FileNotFoundError.

End Sample.

(** ** Notions the properties are stated with *)

(** The words, each with a space before it. *)
Definition spaced (ws : list str) : str := concat (map (cons space) ws).

(** A word: not empty, free of white space. *)
Definition is_word (w : str) : Prop :=
  nonempty w = true /\ Forall (fun c => isspace c = false) w.

(** Padding and truncation as the specification words them: zeros in front
    of a sequence shorter than [maxlen], the last [maxlen] entries of a
    longer one. *)
Definition pre_pad (maxlen : Z) (s : list Z) : list Z :=
  repeat 0%Z (Z.to_nat maxlen - length s)
  ++ skipn (length s - Z.to_nat maxlen) s.

(** The tokens of a corpus, as [fit] meets them: the tokens of the cleaned
    texts, from the first text to the last. *)
Definition corpus_tokens (corpus : list str) : list str :=
  flat_map text_to_word_sequence (map clean_text corpus).

(** How often a token occurs. *)
Definition occurrences (tokens : list str) (w : str) : Z :=
  Z.of_nat (count_occ str_eq_dec tokens w).

(** The distinct tokens, in the order in which they are first seen. *)
Fixpoint distinct (tokens : list str) : list str :=
  match tokens with
  | [] => []
  | w :: rest => w :: remove str_eq_dec w (distinct rest)
  end.

(** Where a token is first seen. *)
Fixpoint first_seen (w : str) (tokens : list str) : nat :=
  match tokens with
  | [] => 0
  | v :: rest => if str_eqb v w then 0 else S (first_seen w rest)
  end.

(** The order of the vocabulary: the more frequent token first, and of two
    tokens of one frequency the one seen first. *)
Definition ranks_before (tokens : list str) (w1 w2 : str) : Prop :=
  (occurrences tokens w2 < occurrences tokens w1)%Z
  \/ (occurrences tokens w1 = occurrences tokens w2
      /\ (first_seen w1 tokens < first_seen w2 tokens)%nat).

(** First-seen order on the entries of [word_counts]. *)
Definition entry_earlier (tokens : list str) (x y : str * Z) : Prop :=
  (first_seen (fst x) tokens < first_seen (fst y) tokens)%nat.

(** The order of the vocabulary on the entries of [word_counts]. *)
Definition entry_before (tokens : list str) (x y : str * Z) : Prop :=
  (snd y < snd x)%Z
  \/ (snd x = snd y
      /\ (first_seen (fst x) tokens < first_seen (fst y) tokens)%nat).

(** The sum of the counts of a [word_counts]. *)
Definition total_count (wc : list (str * Z)) : Z :=
  fold_right Z.add 0%Z (map snd wc).

(** A row without the zeros in front of it. *)
Fixpoint drop_zeros (row : list Z) : list Z :=
  match row with
  | [] => []
  | x :: rest => if (x =? 0)%Z then drop_zeros rest else row
  end.

(** A text of ASCII: every code point is below 128. *)
Definition ascii_text (text : str) : Prop :=
  Forall (fun c => (c < 128)%N) text.

(* ================================================================== *)
(** * Part II: properties                                              *)
(* ================================================================== *)

(** ** Results *)

Lemma mapM_length {A B : Type} (f : A -> result B) (l : list A) (r : list B) :
  mapM f l = Ok r -> length r = length l.
Proof.
  revert r; induction l as [|x xs IH]; simpl; intros r H.
  - now inversion H.
  - destruct (f x) as [y|e]; simpl in H; [|discriminate].
    destruct (mapM f xs) as [ys|e]; simpl in H; [|discriminate].
    inversion H; subst; simpl. now rewrite (IH ys).
Qed.

Lemma mapM_all_ok {A B : Type} (f : A -> result B) (g : A -> B) (l : list A) :
  (forall x, In x l -> f x = Ok (g x)) -> mapM f l = Ok (map g l).
Proof.
  induction l as [|x xs IH]; simpl; intros H; [reflexivity|].
  rewrite (H x) by now left. simpl.
  rewrite IH by (intros y Hy; apply H; now right). reflexivity.
Qed.

Lemma mapM_nth_error {A B : Type} (f : A -> result B) (l : list A)
      (r : list B) (i : nat) (x : A) :
  mapM f l = Ok r -> nth_error l i = Some x ->
  exists y, f x = Ok y /\ nth_error r i = Some y.
Proof.
  revert r i; induction l as [|a xs IH]; simpl; intros r i H Hi.
  - destruct i; discriminate.
  - destruct (f a) as [y|e] eqn:Ea; simpl in H; [|discriminate].
    destruct (mapM f xs) as [ys|e] eqn:Es; simpl in H; [|discriminate].
    inversion H; subst r; clear H.
    destruct i as [|i]; simpl in *.
    + inversion Hi; subst. now exists y.
    + now apply IH.
Qed.

(** ** Characters *)

Lemma between_above (lo hi c : N) : (hi < c)%N -> between lo hi c = false.
Proof.
  intros H. unfold between. apply andb_false_iff. right. now apply N.leb_gt.
Qed.

Lemma between_below (lo hi c : N) : (c < lo)%N -> between lo hi c = false.
Proof.
  intros H. unfold between. apply andb_false_iff. left. now apply N.leb_gt.
Qed.

Lemma between_spec (lo hi c : N) :
  between lo hi c = true <-> (lo <= c <= hi)%N.
Proof.
  unfold between. rewrite andb_true_iff, !N.leb_le. tauto.
Qed.

Lemma isspace_space : isspace space = true.
Proof. reflexivity. Qed.

Lemma letter_not_space (c : char) :
  is_ascii_letter c = true -> isspace c = false.
Proof.
  unfold is_ascii_letter. rewrite orb_true_iff, !between_spec.
  intros H. unfold isspace.
  rewrite (between_above 9 13), (between_above 28 32),
    (between_below 8192 8202) by lia.
  rewrite !(proj2 (N.eqb_neq _ _)) by lia. reflexivity.
Qed.

Lemma space_not_letter (c : char) :
  isspace c = true -> is_ascii_letter c = false.
Proof.
  intros H. destruct (is_ascii_letter c) eqn:E; [|reflexivity].
  apply letter_not_space in E. congruence.
Qed.

(** ** Stripping and collapsing *)

Lemma rstrip_cons_nonspace (c : char) (x : str) :
  isspace c = false -> rstrip (c :: x) = c :: rstrip x.
Proof. intros H. simpl. rewrite H. now destruct (rstrip x). Qed.

Lemma rstrip_cons_space (c : char) (x : str) :
  isspace c = true ->
  rstrip (c :: x) = match rstrip x with [] => [] | r => c :: r end.
Proof. intros H. simpl. now rewrite H. Qed.

Lemma lstrip_snoc (x : str) (c : char) :
  lstrip (x ++ [c])
  = match lstrip x with
    | [] => if isspace c then [] else [c]
    | r => r ++ [c]
    end.
Proof.
  induction x as [|d x IH]; simpl; [reflexivity|].
  destruct (isspace d); [exact IH|reflexivity].
Qed.

(** [rstrip] strips from the right what [lstrip] strips from the left. *)
Lemma rstrip_rev (s : str) : rstrip s = rev (lstrip (rev s)).
Proof.
  induction s as [|c t IH]; [reflexivity|].
  simpl. rewrite lstrip_snoc, IH.
  destruct (lstrip (rev t)) as [|d r]; simpl.
  - now destruct (isspace c).
  - rewrite rev_app_distr. simpl.
    destruct (rev r ++ [d]) eqn:E; [|reflexivity].
    now apply app_eq_nil in E.
Qed.

Lemma lstrip_sub_spaces (b : bool) (u : str) :
  lstrip (sub_spaces_from b u) = sub_spaces_from true (lstrip u).
Proof.
  revert b; induction u as [|c t IH]; intros b; simpl; [reflexivity|].
  destruct (isspace c) eqn:E.
  - destruct b; simpl; apply IH.
  - simpl. now rewrite E.
Qed.

Lemma sub_spaces_lstrip (u : str) :
  sub_spaces_from true (lstrip u) = sub_spaces_from true u.
Proof.
  induction u as [|c t IH]; simpl; [reflexivity|].
  destruct (isspace c) eqn:E; [exact IH|]. simpl. now rewrite E.
Qed.

Lemma fields_not_nil (p : char -> bool) (s : str) : fields p s <> [].
Proof.
  destruct s as [|c t]; simpl; [discriminate|].
  destruct (p c); [discriminate|]. destruct (fields p t); discriminate.
Qed.

Lemma join_space_spaced (ws : list str) :
  Forall (fun w => nonempty w = true) ws ->
  match join_space ws with [] => [] | r => space :: r end = spaced ws.
Proof.
  destruct ws as [|w rest]; simpl; [reflexivity|].
  intros H. inversion H as [|? ? Hw _]; subst.
  destruct w as [|c w]; [discriminate|]. reflexivity.
Qed.

Lemma words_nonempty (u : str) :
  Forall (fun w => nonempty w = true) (words u).
Proof.
  unfold words. apply Forall_forall. intros w Hw.
  now apply filter_In in Hw.
Qed.

(** What [rstrip] leaves of a collapsed text, in terms of its pieces. *)
Lemma rstrip_sub_spaces_fields (u : str) :
  rstrip (sub_spaces_from false u)
  = hd [] (fields isspace u) ++ spaced (filter nonempty (tl (fields isspace u)))
  /\ rstrip (sub_spaces_from true u) = join_space (words u).
Proof.
  induction u as [|c t [IHf IHt]]; [split; reflexivity|].
  unfold words in *. simpl fields. simpl sub_spaces_from.
  destruct (isspace c) eqn:E.
  - split.
    + rewrite rstrip_cons_space by apply isspace_space.
      rewrite IHt. simpl.
      apply join_space_spaced, words_nonempty.
    + simpl filter. exact IHt.
  - rewrite !rstrip_cons_nonspace by exact E. rewrite IHf.
    destruct (fields isspace t) as [|w ws] eqn:F;
      [now apply fields_not_nil in F|].
    simpl. split; reflexivity.
Qed.

(** [clean_text] computes what the specification's words describe. *)
Lemma clean_text_normalize (text : str) : clean_text text = normalize_spec text.
Proof.
  unfold clean_text, normalize_spec, strip, sub_spaces.
  rewrite lstrip_sub_spaces, sub_spaces_lstrip.
  apply rstrip_sub_spaces_fields.
Qed.

(** *** Which characters survive *)

Lemma In_lstrip (x : char) (s : str) : In x (lstrip s) -> In x s.
Proof.
  induction s as [|c t IH]; simpl; [tauto|].
  destruct (isspace c); simpl; tauto.
Qed.

Lemma In_rstrip (x : char) (s : str) : In x (rstrip s) -> In x s.
Proof.
  induction s as [|c t IH]; simpl; [tauto|].
  destruct (rstrip t) as [|d r].
  - destruct (isspace c); simpl; tauto.
  - simpl in *. tauto.
Qed.

Lemma In_sub_spaces (x : char) (b : bool) (s : str) :
  In x (sub_spaces_from b s) -> x = space \/ (In x s /\ isspace x = false).
Proof.
  revert b; induction s as [|c t IH]; intros b; simpl; [tauto|].
  destruct (isspace c) eqn:E.
  - destruct b; simpl; intros H.
    + destruct (IH _ H) as [->|[? ?]]; auto.
    + destruct H as [<-|H]; auto. destruct (IH _ H) as [->|[? ?]]; auto.
  - simpl. intros [<-|H]; auto. destruct (IH _ H) as [->|[? ?]]; auto.
Qed.

Lemma clean_text_chars (text : str) :
  Forall (fun c => is_ascii_letter c = true \/ c = space) (clean_text text).
Proof.
  apply Forall_forall. intros x Hx. unfold clean_text, strip, sub_spaces in Hx.
  apply In_rstrip, In_lstrip, In_sub_spaces in Hx.
  destruct Hx as [->|[Hx Hs]]; auto.
  apply filter_In in Hx. destruct Hx as [_ Hx]. rewrite Hs, orb_false_r in Hx.
  auto.
Qed.

Section FilterLetters.

(** A class of characters free of white space, such as the letters. *)
Variable keep : char -> bool.
Hypothesis keep_not_space : forall c, keep c = true -> isspace c = false.

Lemma keep_space_false (c : char) : isspace c = true -> keep c = false.
Proof.
  intros H. destruct (keep c) eqn:E; [|reflexivity].
  apply keep_not_space in E. congruence.
Qed.

Lemma filter_lstrip (s : str) : filter keep (lstrip s) = filter keep s.
Proof.
  induction s as [|c t IH]; simpl; [reflexivity|].
  destruct (isspace c) eqn:E; [|reflexivity].
  now rewrite (keep_space_false _ E).
Qed.

Lemma filter_rstrip (s : str) : filter keep (rstrip s) = filter keep s.
Proof.
  induction s as [|c t IH]; simpl; [reflexivity|].
  destruct (rstrip t) as [|d r].
  - simpl in IH. rewrite <- IH.
    destruct (isspace c) eqn:E; simpl.
    + now rewrite (keep_space_false _ E).
    + reflexivity.
  - simpl in *. now rewrite IH.
Qed.

Lemma filter_sub_spaces (b : bool) (s : str) :
  filter keep (sub_spaces_from b s) = filter keep s.
Proof.
  revert b; induction s as [|c t IH]; intros b; simpl; [reflexivity|].
  destruct (isspace c) eqn:E.
  - rewrite (keep_space_false _ E).
    destruct b; simpl; [|rewrite (keep_space_false _ isspace_space)];
      apply IH.
  - simpl. now rewrite IH.
Qed.

End FilterLetters.

Lemma filter_sub_non_letters (text : str) :
  filter is_ascii_letter (sub_non_letters text) = filter is_ascii_letter text.
Proof.
  unfold sub_non_letters.
  induction text as [|c t IH]; simpl; [reflexivity|].
  destruct (is_ascii_letter c) eqn:E; simpl.
  - now rewrite E, IH.
  - destruct (isspace c); simpl; [rewrite E|]; exact IH.
Qed.

Lemma clean_text_letters (text : str) :
  filter is_ascii_letter (clean_text text) = filter is_ascii_letter text.
Proof.
  unfold clean_text, strip, sub_spaces.
  rewrite (filter_rstrip _ letter_not_space).
  rewrite (filter_lstrip _ letter_not_space).
  rewrite (filter_sub_spaces _ letter_not_space).
  apply filter_sub_non_letters.
Qed.

(** *** Words and pieces *)

Lemma fields_pieces (p : char -> bool) (s : str) :
  Forall (Forall (fun c => p c = false /\ In c s)) (fields p s).
Proof.
  induction s as [|c t IH]; simpl; [repeat constructor|].
  assert (IH' : Forall (Forall (fun d => p d = false /\ In d (c :: t)))
                       (fields p t)).
  { eapply Forall_impl; [|exact IH]. intros w Hw.
    eapply Forall_impl; [|exact Hw]. simpl. tauto. }
  destruct (p c) eqn:E.
  - constructor; [constructor|exact IH'].
  - destruct (fields p t) as [|w ws].
    + repeat constructor; auto.
    + inversion IH'; subst. constructor; [|assumption].
      constructor; [|assumption]. simpl; auto.
Qed.

Lemma words_are_words (u : str) : Forall is_word (words u).
Proof.
  apply Forall_forall. intros w Hw. unfold words in Hw.
  apply filter_In in Hw. destruct Hw as [Hw Hne]. split; [exact Hne|].
  pose proof (fields_pieces isspace u) as F.
  rewrite Forall_forall in F. specialize (F w Hw).
  eapply Forall_impl; [|exact F]. simpl. tauto.
Qed.

Section Pieces.

(** A separator class that holds the space: white space, or the space
    alone. *)
Variable p : char -> bool.
Hypothesis p_space : p space = true.

Lemma fields_app_piece (w x : str) :
  Forall (fun c => p c = false) w ->
  fields p (w ++ x) = (w ++ hd [] (fields p x)) :: tl (fields p x).
Proof.
  induction 1 as [|c w Hc Hw IH]; simpl.
  - destruct (fields p x) eqn:F; [now apply fields_not_nil in F|].
    reflexivity.
  - rewrite Hc, IH. reflexivity.
Qed.

Lemma fields_spaced (ws : list str) :
  Forall (Forall (fun c => p c = false)) ws ->
  fields p (spaced ws) = [] :: ws.
Proof.
  induction 1 as [|w ws Hw Hws IH]; [reflexivity|].
  unfold spaced in *. simpl concat. simpl fields. rewrite p_space.
  rewrite fields_app_piece by exact Hw. rewrite IH. simpl.
  now rewrite app_nil_r.
Qed.

Lemma fields_join_space (ws : list str) :
  Forall (fun w => nonempty w = true) ws ->
  Forall (Forall (fun c => p c = false)) ws ->
  filter nonempty (fields p (join_space ws)) = ws.
Proof.
  intros Hne H. destruct ws as [|w ws]; [reflexivity|].
  inversion H as [|? ? Hw Hws]; subst.
  inversion Hne as [|? ? Hnw Hnws]; subst.
  unfold join_space. fold (spaced ws).
  rewrite fields_app_piece by exact Hw.
  rewrite fields_spaced by exact Hws. simpl. rewrite app_nil_r, Hnw.
  f_equal. apply forallb_filter_id. apply forallb_forall.
  intros v Hv. rewrite Forall_forall in Hnws. now apply Hnws.
Qed.

End Pieces.

Lemma words_join_space (ws : list str) :
  Forall is_word ws -> words (join_space ws) = ws.
Proof.
  intros H. unfold words. apply fields_join_space; [reflexivity| |].
  - eapply Forall_impl; [|exact H]. now intros w [Hn _].
  - eapply Forall_impl; [|exact H]. now intros w [_ Hw].
Qed.

Lemma filter_all (A : Type) (f : A -> bool) (l : list A) :
  Forall (fun x => f x = true) l -> filter f l = l.
Proof.
  induction 1 as [|x l Hx Hl IH]; simpl; [reflexivity|].
  now rewrite Hx, IH.
Qed.

Lemma words_all_space (u : str) :
  Forall (fun c => isspace c = true) u -> words u = [].
Proof.
  unfold words. induction 1 as [|c t Hc Ht IH]; simpl; [reflexivity|].
  now rewrite Hc.
Qed.

Lemma clean_text_no_letter (text : str) :
  Forall (fun c => is_ascii_letter c = false) text -> clean_text text = [].
Proof.
  intros H. rewrite clean_text_normalize. unfold normalize_spec.
  rewrite words_all_space; [reflexivity|].
  apply Forall_forall. intros c Hc. apply filter_In in Hc.
  destruct Hc as [Hc Hk]. rewrite Forall_forall in H.
  now rewrite (H c Hc) in Hk.
Qed.

(** *** A cleaned text has nothing left to collapse or to trim *)

Lemma sub_spaces_app_piece (b : bool) (c : char) (w x : str) :
  Forall (fun d => isspace d = false) (c :: w) ->
  sub_spaces_from b ((c :: w) ++ x) = (c :: w) ++ sub_spaces_from false x.
Proof.
  intros H. inversion H as [|? ? Hc Hw]; subst. simpl. rewrite Hc. f_equal.
  clear H Hc. induction Hw as [|d w Hd Hw IH]; simpl; [reflexivity|].
  now rewrite Hd, IH.
Qed.

Lemma rstrip_app_piece (w x : str) :
  Forall (fun d => isspace d = false) w -> rstrip (w ++ x) = w ++ rstrip x.
Proof.
  induction 1 as [|d w Hd Hw IH]; [reflexivity|].
  change ((d :: w) ++ x) with (d :: (w ++ x)).
  rewrite rstrip_cons_nonspace by exact Hd. now rewrite IH.
Qed.

Lemma sub_spaces_spaced (ws : list str) :
  Forall is_word ws -> sub_spaces_from false (spaced ws) = spaced ws.
Proof.
  induction 1 as [|w ws [Hn Hw] Hws IH]; [reflexivity|].
  unfold spaced in *. simpl concat. destruct w as [|c w]; [discriminate|].
  set (y := (c :: w) ++ concat (map (cons space) ws)).
  change (sub_spaces_from false (space :: y))
    with (space :: sub_spaces_from true y).
  subst y. rewrite sub_spaces_app_piece by exact Hw. now rewrite IH.
Qed.

Lemma rstrip_spaced (ws : list str) :
  Forall is_word ws -> rstrip (spaced ws) = spaced ws.
Proof.
  induction 1 as [|w ws [Hn Hw] Hws IH]; [reflexivity|].
  unfold spaced in *. simpl concat.
  rewrite rstrip_cons_space by apply isspace_space.
  rewrite rstrip_app_piece by exact Hw. rewrite IH.
  destruct w as [|c w]; [discriminate|]. reflexivity.
Qed.

Lemma join_space_fixed (ws : list str) :
  Forall is_word ws ->
  sub_spaces (join_space ws) = join_space ws
  /\ strip (join_space ws) = join_space ws.
Proof.
  intros H. destruct ws as [|w ws]; [split; reflexivity|].
  inversion H as [|? ? [Hn Hw] Hws]; subst.
  destruct w as [|c w]; [discriminate|].
  unfold join_space. fold (spaced ws). split.
  - unfold sub_spaces. rewrite sub_spaces_app_piece by exact Hw.
    now rewrite sub_spaces_spaced.
  - unfold strip. inversion Hw as [|? ? Hc _]; subst.
    simpl lstrip. rewrite Hc.
    change (c :: w ++ spaced ws) with ((c :: w) ++ spaced ws).
    rewrite rstrip_app_piece by exact Hw. now rewrite rstrip_spaced.
Qed.

(** ** The normalizer's claims *)

(** C6. [clean_text] removes every character that is neither an ASCII
    letter nor white space and keeps every letter in place: what it returns
    is made of ASCII letters and spaces only, and its letters are the letters
    of the input, in order. It turns every run of white space into one space
    and trims both ends: what it returns is the words of the text left after
    the removal, one space between neighbours, with nothing left to collapse
    and nothing left to trim. On ["Hi!! 123  there"] it returns
    ["Hi there"]. *)
Theorem clean_text_removes_collapses_trims :
  (forall text : str,
      Forall (fun c => is_ascii_letter c = true \/ c = space) (clean_text text)
      /\ filter is_ascii_letter (clean_text text) = filter is_ascii_letter text
      /\ clean_text text = normalize_spec text
      /\ sub_spaces (clean_text text) = clean_text text
      /\ strip (clean_text text) = clean_text text)
  /\ clean_text (of_string "Hi!! 123  there") = of_string "Hi there".
Proof.
  split; [|reflexivity].
  intros text. split; [apply clean_text_chars|].
  split; [apply clean_text_letters|].
  split; [apply clean_text_normalize|].
  rewrite clean_text_normalize. unfold normalize_spec.
  apply join_space_fixed, words_are_words.
Qed.

(** C7. [clean_text] is idempotent. *)
Theorem clean_text_idempotent (x : str) :
  clean_text (clean_text x) = clean_text x.
Proof.
  rewrite (clean_text_normalize (clean_text x)). unfold normalize_spec.
  rewrite filter_all.
  - rewrite (clean_text_normalize x) at 1. unfold normalize_spec.
    rewrite words_join_space by apply words_are_words.
    symmetry. apply clean_text_normalize.
  - eapply Forall_impl; [|apply clean_text_chars].
    intros c [H| ->]; [now rewrite H|reflexivity].
Qed.

(** ** Padding *)

Lemma firstn_repeat_le (A : Type) (x : A) (a n : nat) :
  a <= n -> firstn a (repeat x n) = repeat x a.
Proof.
  revert n; induction a as [|a IH]; intros n H; [reflexivity|].
  destruct n as [|n]; [lia|]. simpl. f_equal. apply IH. lia.
Qed.

Lemma In_firstn (A : Type) (x : A) (n : nat) (l : list A) :
  In x (firstn n l) -> In x l.
Proof.
  intros H. rewrite <- (firstn_skipn n l). apply in_or_app. now left.
Qed.

Lemma In_skipn (A : Type) (x : A) (n : nat) (l : list A) :
  In x (skipn n l) -> In x l.
Proof.
  intros H. rewrite <- (firstn_skipn n l). apply in_or_app. now right.
Qed.

(** From length one on, [pad_sequences] pads and truncates in front and
    raises nothing. *)
Lemma pad_row_pre_pad (maxlen : Z) (s : list Z) :
  (1 <= maxlen)%Z -> pad_row maxlen s = Ok (pre_pad maxlen s).
Proof.
  intros H. unfold pad_row, pre_pad.
  destruct s as [|a s'] eqn:Es.
  - simpl. now rewrite app_nil_r, Nat.sub_0_r.
  - rewrite <- Es. assert (Hs : (1 <= length s)%nat) by (subst s; simpl; lia).
    clear Es a s'.
    unfold slice_from, assign_from, slice_start.
    rewrite length_skipn, repeat_length.
    assert (E1 : (- maxlen <? 0)%Z = true) by (apply Z.ltb_lt; lia).
    rewrite E1.
    set (k := Z.to_nat (Z.max 0 (- maxlen + Z.of_nat (length s)))).
    assert (Hk : k = (length s - Z.to_nat maxlen)%nat) by (unfold k; lia).
    assert (E2 : (- Z.of_nat (length s - k) <? 0)%Z = true)
      by (apply Z.ltb_lt; lia).
    rewrite E2.
    assert (E3 : (Z.of_nat (length s - k) =?
                  Z.of_nat (Z.to_nat maxlen)
                  - Z.max 0 (- Z.of_nat (length s - k)
                             + Z.of_nat (Z.to_nat maxlen)))%Z = true)
      by (apply Z.eqb_eq; lia).
    rewrite E3. rewrite firstn_repeat_le by lia.
    rewrite Hk. do 3 f_equal. lia.
Qed.

Lemma pre_pad_length (maxlen : Z) (s : list Z) :
  (0 <= maxlen)%Z -> Z.of_nat (length (pre_pad maxlen s)) = maxlen.
Proof.
  intros H. unfold pre_pad. rewrite length_app, repeat_length, length_skipn.
  lia.
Qed.

Lemma pad_sequences_pre_pad (sequences : list (list Z)) (maxlen : Z) :
  (1 <= maxlen)%Z ->
  pad_sequences sequences maxlen = Ok (map (pre_pad maxlen) sequences).
Proof.
  intros H. unfold pad_sequences.
  assert (E : (maxlen <? 0)%Z = false) by (apply Z.ltb_ge; lia).
  rewrite E. apply mapM_all_ok. intros s _. now apply pad_row_pre_pad.
Qed.

(** Whatever the length asked for, a row that [pad_sequences] returns is
    made of zeros and of entries of the sequence. *)
Lemma pad_row_entries (maxlen : Z) (s row : list Z) (x : Z) :
  pad_row maxlen s = Ok row -> In x row -> x = 0%Z \/ In x s.
Proof.
  unfold pad_row. destruct s as [|a s'] eqn:Es.
  - intros H Hx. inversion H; subst. left. eapply repeat_spec; eauto.
  - rewrite <- Es. clear Es. unfold assign_from.
    set (trunc := slice_from s (- maxlen)).
    assert (Ht : forall y, In y trunc -> In y s).
    { intros y Hy. unfold trunc, slice_from in Hy.
      eapply In_skipn; eauto. }
    match goal with |- context [if ?c then _ else _] => destruct c end.
    + intros H Hx. inversion H; subst. apply in_app_or in Hx.
      destruct Hx as [Hx|Hx]; [|auto].
      left. apply In_firstn in Hx. eapply repeat_spec; eauto.
    + destruct trunc as [|b [|? ?]]; try discriminate.
      intros H Hx. inversion H; subst. apply in_app_or in Hx.
      destruct Hx as [Hx|Hx].
      * left. apply In_firstn in Hx. eapply repeat_spec; eauto.
      * right. apply repeat_spec in Hx. subst. apply Ht. now left.
Qed.

(** An empty sequence gives a row of zeros for every length. *)
Lemma pad_row_nil (maxlen : Z) :
  pad_row maxlen [] = Ok (repeat 0%Z (Z.to_nat maxlen)).
Proof. reflexivity. Qed.

(** ** The vectorizer's transform step *)

Lemma preprocess_text_phases (reviews : list str) (max_words max_len : Z) :
  preprocess_text reviews max_words max_len
  = (m <- transform (fit reviews max_words) max_len (map clean_text reviews) ;;
     Ok (m, fit reviews max_words)).
Proof. reflexivity. Qed.

Lemma transform_pre_pad (tokenizer : Tokenizer) (max_len : Z)
      (texts : list str) :
  (1 <= max_len)%Z ->
  transform tokenizer max_len texts
  = Ok (map (fun text => pre_pad max_len (text_to_sequence tokenizer text))
            texts).
Proof.
  intros H. unfold transform, texts_to_sequences.
  rewrite pad_sequences_pre_pad by exact H. now rewrite map_map.
Qed.

Lemma preprocess_text_pre_pad (reviews : list str) (max_words max_len : Z) :
  (1 <= max_len)%Z ->
  preprocess_text reviews max_words max_len
  = Ok (map (fun review =>
               pre_pad max_len
                 (text_to_sequence (fit reviews max_words) (clean_text review)))
            reviews,
        fit reviews max_words).
Proof.
  intros H. rewrite preprocess_text_phases, transform_pre_pad by exact H.
  simpl. now rewrite map_map.
Qed.

(** C1, amended. For every [max_len] from 1 on, every tokenizer and all
    texts, whatever their number of tokens, the transform step returns one
    row for each text, and every row has exactly [max_len] elements; so does
    [preprocess_text] for all reviews and every [max_words]. *)
Theorem transform_rows_have_max_len (max_len : Z) :
  (1 <= max_len)%Z ->
  (forall (tokenizer : Tokenizer) (texts : list str),
      exists m, transform tokenizer max_len texts = Ok m
                /\ length m = length texts
                /\ Forall (fun row => Z.of_nat (length row) = max_len) m)
  /\ (forall (reviews : list str) (max_words : Z),
         exists m tokenizer,
           preprocess_text reviews max_words max_len = Ok (m, tokenizer)
           /\ length m = length reviews
           /\ Forall (fun row => Z.of_nat (length row) = max_len) m).
Proof.
  intros H. split.
  - intros tokenizer texts. eexists. split; [now apply transform_pre_pad|].
    split; [apply length_map|].
    apply Forall_map, Forall_forall. intros text _.
    apply pre_pad_length. lia.
  - intros reviews max_words. do 2 eexists.
    split; [now apply preprocess_text_pre_pad|].
    split; [apply length_map|].
    apply Forall_map, Forall_forall. intros text _.
    apply pre_pad_length. lia.
Qed.

Lemma transform_rows_have_max_len_witness :
  (1 <= 4)%Z
  /\ exists m tokenizer,
      preprocess_text Sample.corpus 2 4 = Ok (m, tokenizer)
      /\ length m = length Sample.corpus
      /\ Forall (fun row => Z.of_nat (length row) = 4%Z) m.
Proof.
  assert (H : (1 <= 4)%Z) by lia.
  split; [exact H|].
  exact (proj2 (transform_rows_have_max_len 4 H) Sample.corpus 2%Z).
Defined.

(** C1 fails as stated at [max_len = 0]: a text of two tokens is no
    sequence of zero elements afterwards, the call raises [ValueError]. The
    slice [s[-0:]] is all of [s], and its two entries cannot be stored in a
    row without cells. *)
Lemma transform_max_len_zero_raises :
  text_to_sequence (fit [Sample.a_b] default_max_words) Sample.a_b
  = [1%Z; 2%Z]
  /\ transform (fit [Sample.a_b] default_max_words) 0 [Sample.a_b]
     = Raise ValueError
  /\ preprocess_text [Sample.a_b] default_max_words 0 = Raise ValueError.
Proof. repeat split; reflexivity. Qed.

(** C2, amended. For every [max_len] from 1 on, the row of a text is made
    from its sequence of token IDs, the IDs [texts_to_sequences] gives it: if
    the sequence is shorter than [max_len], the row is zeros followed by the
    sequence; if it is longer, the row is the last [max_len] IDs of the
    sequence; if it has [max_len] IDs, the row is the sequence. *)
Theorem transform_pads_and_truncates_in_front
        (tokenizer : Tokenizer) (max_len : Z) (texts : list str) :
  (1 <= max_len)%Z ->
  exists m,
    transform tokenizer max_len texts = Ok m
    /\ Forall2
         (fun text row =>
            let ids := text_to_sequence tokenizer text in
            ((Z.of_nat (length ids) < max_len)%Z ->
             row = repeat 0%Z (Z.to_nat max_len - length ids) ++ ids)
            /\ ((Z.of_nat (length ids) > max_len)%Z ->
                row = skipn (length ids - Z.to_nat max_len) ids)
            /\ (Z.of_nat (length ids) = max_len -> row = ids))
         texts m.
Proof.
  intros H. eexists. split; [now apply transform_pre_pad|].
  induction texts as [|text texts IH]; simpl; constructor; [|exact IH].
  cbv zeta. unfold pre_pad.
  set (ids := text_to_sequence tokenizer text).
  split; [|split]; intros Hl.
  - replace (length ids - Z.to_nat max_len)%nat with 0%nat by lia.
    reflexivity.
  - replace (Z.to_nat max_len - length ids)%nat with 0%nat by lia.
    reflexivity.
  - replace (Z.to_nat max_len - length ids)%nat with 0%nat by lia.
    replace (length ids - Z.to_nat max_len)%nat with 0%nat by lia.
    reflexivity.
Qed.

Lemma transform_pads_and_truncates_in_front_witness :
  (1 <= 2)%Z
  /\ exists m,
      transform (fit Sample.corpus 10) 2 Sample.corpus = Ok m
      /\ Forall2
           (fun text row =>
              let ids := text_to_sequence (fit Sample.corpus 10) text in
              ((Z.of_nat (length ids) < 2)%Z ->
               row = repeat 0%Z (Z.to_nat 2 - length ids) ++ ids)
              /\ ((Z.of_nat (length ids) > 2)%Z ->
                  row = skipn (length ids - Z.to_nat 2) ids)
              /\ (Z.of_nat (length ids) = 2%Z -> row = ids))
           Sample.corpus m.
Proof.
  assert (H : (1 <= 2)%Z) by lia.
  split; [exact H|].
  exact (transform_pads_and_truncates_in_front
           (fit Sample.corpus 10) 2 Sample.corpus H).
Defined.

(** C2 fails as stated at [max_len = 0]: the sequence of a text of three
    tokens is longer than [max_len], and the row is not its last zero IDs,
    for no row is returned. *)
Lemma truncation_to_zero_raises :
  let tokenizer := fit [Sample.good_good_movie] default_max_words in
  let ids := text_to_sequence tokenizer Sample.good_good_movie in
  ids = [1%Z; 1%Z; 2%Z]
  /\ (Z.of_nat (length ids) > 0)%Z
  /\ transform tokenizer 0 [Sample.good_good_movie] = Raise ValueError
  /\ transform tokenizer 0 [Sample.good_good_movie]
     <> Ok [skipn (length ids - Z.to_nat 0) ids].
Proof.
  cbv zeta. split; [reflexivity|]. split; [reflexivity|].
  split; [reflexivity|]. discriminate.
Qed.

(** ** The range of the entries *)

Lemma mapM_In {A B : Type} (f : A -> result B) (l : list A) (r : list B)
      (y : B) :
  mapM f l = Ok r -> In y r -> exists x, In x l /\ f x = Ok y.
Proof.
  revert r; induction l as [|a xs IH]; simpl; intros r H Hy.
  - inversion H; subst. destruct Hy.
  - destruct (f a) as [b|e] eqn:Ea; simpl in H; [|discriminate].
    destruct (mapM f xs) as [ys|e] eqn:Es; simpl in H; [|discriminate].
    inversion H; subst r; clear H. destruct Hy as [<-|Hy].
    + exists a. auto.
    + destruct (IH ys eq_refl Hy) as [x [Hx Hf]]. exists x. auto.
Qed.

Lemma str_eqb_eq (a b : str) : str_eqb a b = true <-> a = b.
Proof.
  unfold str_eqb. destruct (str_eq_dec a b); split; congruence.
Qed.

Lemma str_eqb_refl (a : str) : str_eqb a a = true.
Proof. now apply str_eqb_eq. Qed.

Lemma str_eqb_neq (a b : str) : str_eqb a b = false <-> a <> b.
Proof.
  unfold str_eqb. destruct (str_eq_dec a b); split; congruence.
Qed.

Lemma get_In (V : Type) (w : str) (d : list (str * V)) (v : V) :
  get w d = Some v -> In (w, v) d.
Proof.
  induction d as [|[k x] rest IH]; simpl; [discriminate|].
  destruct (str_eqb k w) eqn:E.
  - apply str_eqb_eq in E. intros H. inversion H; subst. now left.
  - intros H. right. now apply IH.
Qed.

Lemma range1_In (n : nat) (i : Z) :
  In i (range1 n) <-> (1 <= i <= Z.of_nat n)%Z.
Proof.
  unfold range1. rewrite in_map_iff. split.
  - intros [k [<- Hk]]. apply in_seq in Hk. lia.
  - intros H. exists (Z.to_nat i). split; [lia|]. apply in_seq. lia.
Qed.

(** After [fit_on_texts] the indices start at 1: index 0 is no word's. *)
Lemma fit_on_texts_index_from_1 (self : Tokenizer) (texts : list str)
      (w : str) (i : Z) :
  get w (word_index (fit_on_texts self texts)) = Some i -> (1 <= i)%Z.
Proof.
  intros H. apply get_In in H. simpl in H.
  apply in_combine_r in H. apply range1_In in H. lia.
Qed.

Lemma keep_index_In (self : Tokenizer) (w : str) (i : Z) :
  In i (keep_index self w) <->
  get w (word_index self) = Some i
  /\ (num_words self = 0%Z \/ (i < num_words self)%Z).
Proof.
  unfold keep_index. destruct (get w (word_index self)) as [j|].
  - destruct (Z.eqb_spec (num_words self) 0) as [E|E]; simpl.
    + split; [intros [<-|[]]; auto|]. intros [H _]. inversion H. now left.
    + destruct (Z.leb_spec (num_words self) j) as [L|L]; simpl.
      * split; [tauto|]. intros [H [H0|H1]]; inversion H; subst; lia.
      * split; [intros [<-|[]]; auto|]. intros [H _]. inversion H. now left.
  - simpl. split; [tauto|]. intros [H _]. discriminate.
Qed.

Lemma preprocess_text_entries (reviews : list str) (max_words max_len : Z)
      (m : list (list Z)) (tokenizer : Tokenizer) (row : list Z) (x : Z) :
  preprocess_text reviews max_words max_len = Ok (m, tokenizer) ->
  In row m -> In x row ->
  x = 0%Z \/ ((1 <= x)%Z /\ (max_words = 0%Z \/ (x < max_words)%Z)).
Proof.
  rewrite preprocess_text_phases. unfold transform, pad_sequences.
  destruct (max_len <? 0)%Z; [discriminate|].
  destruct (mapM _ _) as [rows|e] eqn:E; simpl; [|discriminate].
  intros H Hrow Hx. inversion H; subst rows tokenizer; clear H.
  destruct (mapM_In _ _ _ _ E Hrow) as [s [Hs Hp]].
  destruct (pad_row_entries _ _ _ _ Hp Hx) as [?|Hin]; [now left|right].
  unfold texts_to_sequences in Hs. apply in_map_iff in Hs.
  destruct Hs as [text [<- _]]. unfold text_to_sequence in Hin.
  apply in_flat_map in Hin. destruct Hin as [w [_ Hw]].
  apply keep_index_In in Hw. destruct Hw as [Hg Hn]. split.
  - eapply fit_on_texts_index_from_1. exact Hg.
  - exact Hn.
Qed.

(** C9, amended. For every [max_words] from 1 on, every integer of the
    matrix [preprocess_text] returns lies in the range from 0 to
    [max_words - 1]: the padding is 0 and an index the tokenizer lets through
    is below [max_words]. The matrix is returned for every [max_len] from 1
    on. *)
Theorem preprocess_text_entries_below_max_words
        (reviews : list str) (max_words max_len : Z) :
  (1 <= max_words)%Z ->
  (forall m tokenizer,
      preprocess_text reviews max_words max_len = Ok (m, tokenizer) ->
      Forall (Forall (fun x => (0 <= x < max_words)%Z)) m)
  /\ ((1 <= max_len)%Z ->
      exists m tokenizer,
        preprocess_text reviews max_words max_len = Ok (m, tokenizer)).
Proof.
  intros H. split.
  - intros m tokenizer E. apply Forall_forall. intros row Hrow.
    apply Forall_forall. intros x Hx.
    destruct (preprocess_text_entries _ _ _ _ _ _ _ E Hrow Hx)
      as [->|[H1 H2]]; lia.
  - intros Hl. do 2 eexists. now apply preprocess_text_pre_pad.
Qed.

Lemma preprocess_text_entries_below_max_words_witness :
  (1 <= 2)%Z
  /\ (forall m tokenizer,
         preprocess_text Sample.corpus 2 4 = Ok (m, tokenizer) ->
         Forall (Forall (fun x => (0 <= x < 2)%Z)) m)
  /\ ((1 <= 4)%Z ->
      exists m tokenizer,
        preprocess_text Sample.corpus 2 4 = Ok (m, tokenizer)).
Proof.
  assert (H : (1 <= 2)%Z) by lia.
  split; [exact H|].
  exact (preprocess_text_entries_below_max_words Sample.corpus 2 4 H).
Defined.

(** C9 fails as stated at [max_words = 0]: the test [num_words and ...] of
    [texts_to_sequences] is then false for every index, no index is held
    back, and the matrix holds 1 and 2, which are not below 0. *)
Lemma max_words_zero_keeps_every_index :
  preprocess_text [Sample.a_b] 0 2 = Ok ([[1%Z; 2%Z]], fit [Sample.a_b] 0)
  /\ ~ Forall (Forall (fun x => (0 <= x < 0)%Z)) [[1%Z; 2%Z]].
Proof.
  split; [reflexivity|]. intros H.
  inversion H as [|? ? Hrow _]; subst.
  inversion Hrow as [|? ? Hx _]; subst. lia.
Qed.

(** ** Reviews without letters *)

(** C10. A string without an ASCII letter is cleaned to the empty string,
    and [preprocess_text] maps such a review to the row of [max_len] zeros:
    on its own for every [max_len] from 0 on, and at its place in every
    batch for which [preprocess_text] returns, which it does for every
    [max_len] from 1 on. *)
Theorem no_letter_review_gives_zero_row (review : str) :
  Forall (fun c => is_ascii_letter c = false) review ->
  clean_text review = []
  /\ (forall max_words max_len : Z,
         (0 <= max_len)%Z ->
         preprocess_text [review] max_words max_len
         = Ok ([repeat 0%Z (Z.to_nat max_len)], fit [review] max_words))
  /\ (forall (reviews : list str) (max_words max_len : Z) m tokenizer i,
         preprocess_text reviews max_words max_len = Ok (m, tokenizer) ->
         nth_error reviews i = Some review ->
         nth_error m i = Some (repeat 0%Z (Z.to_nat max_len)))
  /\ (forall (reviews : list str) (max_words max_len : Z),
         (1 <= max_len)%Z ->
         exists m tokenizer,
           preprocess_text reviews max_words max_len = Ok (m, tokenizer)).
Proof.
  intros H. pose proof (clean_text_no_letter review H) as Hc.
  split; [exact Hc|]. split; [|split].
  - intros max_words max_len Hl.
    rewrite preprocess_text_phases. unfold transform, pad_sequences.
    assert (E : (max_len <? 0)%Z = false) by (apply Z.ltb_ge; lia).
    rewrite E. simpl. rewrite Hc. reflexivity.
  - intros reviews max_words max_len m tokenizer i E Hi.
    rewrite preprocess_text_phases in E. unfold transform, pad_sequences in E.
    destruct (max_len <? 0)%Z; [discriminate|].
    destruct (mapM _ _) as [rows|e] eqn:Em; simpl in E; [|discriminate].
    inversion E; subst rows tokenizer; clear E.
    assert (Hs : nth_error
                   (texts_to_sequences (fit reviews max_words)
                                       (map clean_text reviews)) i
                 = Some []).
    { unfold texts_to_sequences. rewrite map_map.
      rewrite (map_nth_error _ _ _ Hi). now rewrite Hc. }
    destruct (mapM_nth_error _ _ _ _ _ Em Hs) as [row [Hp Hr]].
    rewrite pad_row_nil in Hp. inversion Hp; subst. exact Hr.
  - intros reviews max_words max_len Hl. do 2 eexists.
    now apply preprocess_text_pre_pad.
Qed.

Lemma no_letter_review_gives_zero_row_witness :
  Forall (fun c => is_ascii_letter c = false) Sample.no_letters
  /\ clean_text Sample.no_letters = []
  /\ preprocess_text [Sample.no_letters] 5000 3
     = Ok ([[0%Z; 0%Z; 0%Z]], fit [Sample.no_letters] 5000).
Proof.
  assert (H : Forall (fun c => is_ascii_letter c = false) Sample.no_letters)
    by (repeat constructor).
  split; [exact H|].
  destruct (no_letter_review_gives_zero_row Sample.no_letters H) as [Hc [Hp _]].
  split; [exact Hc|].
  apply (Hp 5000%Z 3%Z). lia.
Defined.

(** ** The label encoder *)

Lemma Series_map_nth_error (d : list (str * Z)) (series : list cell)
      (i : nat) (label : str) :
  nth_error series i = Some (Some label) ->
  nth_error (Series_map d series) i = Some (get label d).
Proof.
  intros H. unfold Series_map.
  now rewrite (map_nth_error _ _ _ H).
Qed.

(** C4. [encode_labels] returns one entry for each record, 1 where the
    label is ["positive"] and 0 where it is ["negative"]. *)
Theorem encode_labels_positive_negative (sentiments : list cell) :
  exists labels,
    encode_labels sentiments = Ok labels
    /\ length labels = length sentiments
    /\ forall i,
        (nth_error sentiments i = Some (Some positive) ->
         nth_error labels i = Some (Some 1%Z))
        /\ (nth_error sentiments i = Some (Some negative) ->
            nth_error labels i = Some (Some 0%Z)).
Proof.
  eexists. split; [reflexivity|]. split; [apply length_map|].
  intros i. split; intros H; now rewrite (Series_map_nth_error _ _ _ _ H).
Qed.

Lemma encode_labels_positive_negative_witness :
  nth_error [Some positive; Some negative] 0 = Some (Some positive)
  /\ nth_error [Some positive; Some negative] 1 = Some (Some negative)
  /\ exists labels,
      encode_labels [Some positive; Some negative] = Ok labels
      /\ nth_error labels 0 = Some (Some 1%Z)
      /\ nth_error labels 1 = Some (Some 0%Z).
Proof.
  assert (H0 : nth_error [Some positive; Some negative] 0
               = Some (Some positive)) by reflexivity.
  assert (H1 : nth_error [Some positive; Some negative] 1
               = Some (Some negative)) by reflexivity.
  split; [exact H0|]. split; [exact H1|].
  destruct (encode_labels_positive_negative [Some positive; Some negative])
    as [labels [E [_ H]]].
  exists labels. split; [exact E|]. split.
  - exact (proj1 (H 0%nat) H0).
  - exact (proj2 (H 1%nat) H1).
Defined.

(** C5, amended. For every label other than ["positive"] and ["negative"],
    [encode_labels] raises nothing: it returns, and the entry at the place of
    that label is a missing value. *)
Theorem encode_labels_unknown_label_missing (sentiments : list cell) :
  exists labels,
    encode_labels sentiments = Ok labels
    /\ forall i label,
        nth_error sentiments i = Some (Some label) ->
        label <> positive -> label <> negative ->
        nth_error labels i = Some None.
Proof.
  eexists. split; [reflexivity|].
  intros i label H Hp Hn. rewrite (Series_map_nth_error _ _ _ _ H). simpl.
  apply not_eq_sym in Hp. apply not_eq_sym in Hn.
  apply str_eqb_neq in Hp. apply str_eqb_neq in Hn.
  now rewrite Hp, Hn.
Qed.

Lemma encode_labels_unknown_label_missing_witness :
  nth_error [Some positive; Some Sample.neutral] 1 = Some (Some Sample.neutral)
  /\ Sample.neutral <> positive
  /\ Sample.neutral <> negative
  /\ exists labels,
      encode_labels [Some positive; Some Sample.neutral] = Ok labels
      /\ nth_error labels 1 = Some None.
Proof.
  assert (H : nth_error [Some positive; Some Sample.neutral] 1
              = Some (Some Sample.neutral)) by reflexivity.
  assert (Hp : Sample.neutral <> positive) by discriminate.
  assert (Hn : Sample.neutral <> negative) by discriminate.
  repeat (split; [assumption|]).
  destruct (encode_labels_unknown_label_missing
              [Some positive; Some Sample.neutral]) as [labels [E Hl]].
  exists labels. split; [exact E|].
  exact (Hl 1%nat Sample.neutral H Hp Hn).
Defined.

(** C5 fails as stated: on the label ["neutral"] no error is raised, the
    encoder returns a missing value. *)
Lemma encode_labels_neutral_is_silent :
  Sample.neutral <> positive
  /\ Sample.neutral <> negative
  /\ encode_labels [Some Sample.neutral] = Ok [None]
  /\ forall e, encode_labels [Some Sample.neutral] <> Raise e.
Proof.
  split; [discriminate|]. split; [discriminate|].
  split; [reflexivity|]. discriminate.
Qed.

(** ** The ingestor *)

Lemma index_of_lt (name : string) (cols : list string) (i : nat) :
  index_of name cols = Some i -> (i < length cols)%nat.
Proof.
  revert i; induction cols as [|c rest IH]; simpl; intros i H; [discriminate|].
  destruct (String.eqb c name).
  - inversion H. lia.
  - destruct (index_of name rest) as [k|]; [|discriminate].
    inversion H. specialize (IH k eq_refl). lia.
Qed.

Lemma complete_row_cell (r : list cell) (i : nat) :
  forallb notna r = true -> (i < length r)%nat -> notna (nth i r None) = true.
Proof.
  intros H Hi. rewrite forallb_forall in H. apply H. now apply nth_In.
Qed.


(** *** The lines the reader and [dropna] let through *)





(** Under the default policy a bad line fails the whole load. *)
Lemma bad_line_stops_default_reader
      (files : string -> result (option Reader.table)) (path : string)
      (t : Reader.table) :
  files path = Ok (Some t) ->
  existsb (Reader.bad_line t) (Reader.lines t) = true ->
  load_data (Reader.read_csv files Reader.error) path = Raise ParserError.
Proof.
  intros H B. unfold load_data, Reader.read_csv, Reader.rows_to_cols.
  rewrite H. simpl. now rewrite B.
Qed.




(** ** The vocabulary *)

(** *** Sorted lists *)

Lemma StronglySorted_map (A B : Type) (R : B -> B -> Prop) (f : A -> B)
      (l : list A) :
  StronglySorted (fun a b => R (f a) (f b)) l -> StronglySorted R (map f l).
Proof.
  induction 1 as [|a l Hl IH Ha]; simpl; constructor; [exact IH|].
  now apply Forall_map.
Qed.

Lemma StronglySorted_weaken (A : Type) (R R' : A -> A -> Prop) (l : list A) :
  (forall x y, In x l -> In y l -> R x y -> R' x y) ->
  StronglySorted R l -> StronglySorted R' l.
Proof.
  intros H S. induction S as [|a l Hl IH Ha]; constructor.
  - apply IH. intros x y Hx Hy. apply H; now right.
  - rewrite Forall_forall in *. intros y Hy.
    apply H; [now left|now right|now apply Ha].
Qed.

Lemma StronglySorted_remove (R : str -> str -> Prop) (a : str) (l : list str) :
  StronglySorted R l -> StronglySorted R (remove str_eq_dec a l).
Proof.
  induction 1 as [|b l Hl IH Hb]; simpl; [constructor|].
  destruct (str_eq_dec a b); [exact IH|]. constructor; [exact IH|].
  rewrite Forall_forall in *. intros y Hy. apply Hb.
  now apply in_remove in Hy.
Qed.

Lemma StronglySorted_nth_error (A : Type) (R : A -> A -> Prop) (l : list A)
      (i j : nat) (x y : A) :
  StronglySorted R l -> (i < j)%nat ->
  nth_error l i = Some x -> nth_error l j = Some y -> R x y.
Proof.
  intros S. revert i j. induction S as [|a l Hl IH Ha]; intros i j Hij Hi Hj.
  - destruct i; discriminate.
  - destruct j as [|j]; [lia|]. simpl in Hj. destruct i as [|i]; simpl in Hi.
    + inversion Hi; subst. rewrite Forall_forall in Ha. apply Ha.
      eapply nth_error_In; eauto.
    + apply (IH i j); trivial. lia.
Qed.

(** *** Counting *)

Lemma fold_count_words (texts : list str) (wc : list (str * Z)) :
  fold_left (fun wc text => count_words (text_to_word_sequence text) wc)
            texts wc
  = count_words (flat_map text_to_word_sequence texts) wc.
Proof.
  revert wc; induction texts as [|t texts IH]; intros wc; simpl;
    [reflexivity|].
  rewrite IH. unfold count_words. now rewrite fold_left_app.
Qed.

Lemma count_words_snoc (p : list str) (w : str) (wc : list (str * Z)) :
  count_words (p ++ [w]) wc = count_word w (count_words p wc).
Proof. unfold count_words. now rewrite fold_left_app. Qed.

Lemma In_distinct (w : str) (p : list str) : In w (distinct p) <-> In w p.
Proof.
  induction p as [|a p IH]; simpl; [tauto|]. split.
  - intros [->|H]; [now left|]. apply in_remove in H. right. tauto.
  - intros [->|H]; [now left|].
    destruct (str_eq_dec a w) as [->|N]; [now left|].
    right. apply in_in_remove; [congruence|tauto].
Qed.

Lemma NoDup_remove_all (a : str) (l : list str) :
  NoDup l -> NoDup (remove str_eq_dec a l).
Proof.
  induction 1 as [|b l Hb Hl IH]; simpl; [constructor|].
  destruct (str_eq_dec a b); [exact IH|]. constructor; [|exact IH].
  intros H. apply in_remove in H. tauto.
Qed.

Lemma NoDup_distinct (p : list str) : NoDup (distinct p).
Proof.
  induction p as [|a p IH]; simpl; constructor.
  - apply remove_In.
  - now apply NoDup_remove_all.
Qed.

Lemma remove_distinct (a : str) (q : list str) :
  remove str_eq_dec a (distinct q) = distinct (remove str_eq_dec a q).
Proof.
  induction q as [|b q IH]; simpl; [reflexivity|].
  destruct (str_eq_dec a b) as [<-|N].
  - now rewrite remove_remove_eq.
  - simpl. f_equal. rewrite <- IH. apply remove_remove_comm.
Qed.

Lemma distinct_snoc_old (p : list str) (w : str) :
  In w p -> distinct (p ++ [w]) = distinct p.
Proof.
  induction p as [|a p IH]; simpl; [tauto|]. intros H. f_equal.
  destruct (str_eq_dec a w) as [->|N].
  - rewrite !remove_distinct, remove_app. simpl.
    destruct (str_eq_dec w w); [|congruence]. now rewrite app_nil_r.
  - rewrite IH; [reflexivity|]. destruct H; [congruence|assumption].
Qed.

Lemma distinct_snoc_new (p : list str) (w : str) :
  ~ In w p -> distinct (p ++ [w]) = distinct p ++ [w].
Proof.
  induction p as [|a p IH]; simpl; [reflexivity|]. intros H.
  rewrite IH by tauto. rewrite remove_app. simpl.
  destruct (str_eq_dec a w); [tauto|reflexivity].
Qed.

Lemma count_word_new (f : str -> Z) (w : str) (ks : list str) :
  ~ In w ks ->
  count_word w (map (fun v => (v, f v)) ks)
  = map (fun v => (v, f v)) ks ++ [(w, 1%Z)].
Proof.
  induction ks as [|k ks IH]; simpl; [reflexivity|]. intros H.
  destruct (str_eqb k w) eqn:E; [apply str_eqb_eq in E; tauto|].
  rewrite IH by tauto. reflexivity.
Qed.

Lemma count_word_old (f : str -> Z) (w : str) (ks : list str) :
  In w ks -> NoDup ks ->
  count_word w (map (fun v => (v, f v)) ks)
  = map (fun v => (v, if str_eqb v w then (f v + 1)%Z else f v)) ks.
Proof.
  induction ks as [|k ks IH]; simpl; [tauto|]. intros H N.
  inversion N as [|? ? Hk Hks]; subst.
  destruct (str_eqb k w) eqn:E.
  - apply str_eqb_eq in E. subst k. f_equal. apply map_ext_in.
    intros v Hv. destruct (str_eqb v w) eqn:E'; [|reflexivity].
    apply str_eqb_eq in E'. subst. tauto.
  - f_equal. apply IH; [|exact Hks]. apply str_eqb_neq in E.
    destruct H; [congruence|assumption].
Qed.

Lemma occurrences_snoc (p : list str) (w v : str) :
  occurrences (p ++ [w]) v
  = if str_eqb v w then (occurrences p v + 1)%Z else occurrences p v.
Proof.
  unfold occurrences. rewrite count_occ_app. simpl.
  destruct (str_eq_dec w v) as [->|N].
  - rewrite str_eqb_refl. lia.
  - apply not_eq_sym in N. apply str_eqb_neq in N. rewrite N. lia.
Qed.

(** [word_counts] after counting: every distinct token with the number of
    its occurrences, in first-seen order. *)
Lemma count_words_entries (tokens : list str) :
  count_words tokens []
  = map (fun w => (w, occurrences tokens w)) (distinct tokens).
Proof.
  induction tokens as [|w p IH] using rev_ind; [reflexivity|].
  rewrite count_words_snoc, IH.
  destruct (in_dec str_eq_dec w p) as [Hin|Hout].
  - rewrite count_word_old by (try apply In_distinct; trivial;
                               apply NoDup_distinct).
    rewrite distinct_snoc_old by exact Hin.
    apply map_ext. intros v. now rewrite occurrences_snoc.
  - rewrite count_word_new by (now rewrite In_distinct).
    rewrite distinct_snoc_new by exact Hout. rewrite map_app. simpl.
    f_equal.
    + apply map_ext_in. intros v Hv. rewrite occurrences_snoc.
      destruct (str_eqb v w) eqn:E; [|reflexivity].
      apply str_eqb_eq in E. subst.
      apply (proj1 (In_distinct _ _)) in Hv. tauto.
    + rewrite occurrences_snoc, str_eqb_refl. unfold occurrences.
      now rewrite (proj1 (count_occ_not_In str_eq_dec p w) Hout).
Qed.

Lemma first_seen_sorted (tokens : list str) :
  StronglySorted
    (fun v1 v2 => (first_seen v1 tokens < first_seen v2 tokens)%nat)
    (distinct tokens).
Proof.
  induction tokens as [|a p IH]; simpl; constructor.
  - apply StronglySorted_remove with (a := a) in IH.
    eapply StronglySorted_weaken; [|exact IH]. simpl.
    intros x y Hx Hy Hxy. apply in_remove in Hx, Hy.
    destruct Hx as [_ Hx], Hy as [_ Hy].
    apply not_eq_sym in Hx, Hy. apply str_eqb_neq in Hx, Hy.
    rewrite Hx, Hy. lia.
  - apply Forall_forall. intros y Hy. apply in_remove in Hy.
    destruct Hy as [_ Hy]. apply not_eq_sym, str_eqb_neq in Hy.
    rewrite str_eqb_refl, Hy. lia.
Qed.

(** *** Sorting *)

Lemma insert_desc_perm (x : str * Z) (l : list (str * Z)) :
  Permutation (insert_desc x l) (x :: l).
Proof.
  induction l as [|y l IH]; simpl; [reflexivity|].
  destruct (snd y <=? snd x)%Z; [reflexivity|].
  rewrite IH. apply perm_swap.
Qed.

Lemma sort_desc_perm (l : list (str * Z)) : Permutation (sort_desc l) l.
Proof.
  induction l as [|x l IH]; simpl; [reflexivity|].
  rewrite insert_desc_perm. now constructor.
Qed.

Section Stable.

Variable tokens : list str.

Lemma insert_desc_sorted (x : str * Z) (s : list (str * Z)) :
  StronglySorted (entry_before tokens) s ->
  Forall (entry_earlier tokens x) s ->
  StronglySorted (entry_before tokens) (insert_desc x s).
Proof.
  intros S. induction S as [|y r Hr IH Hy]; intros Hx; simpl.
  - repeat constructor.
  - inversion Hx as [|? ? Hxy Hxr]; subst.
    destruct (Z.leb_spec (snd y) (snd x)) as [L|L].
    + constructor; [now constructor|].
      constructor.
      * unfold entry_before. unfold entry_earlier in Hxy. lia.
      * rewrite Forall_forall in *. intros z Hz.
        specialize (Hy z Hz). specialize (Hxr z Hz).
        unfold entry_before in *. unfold entry_earlier in Hxr. lia.
    + constructor; [now apply IH|].
      apply Forall_forall. intros z Hz.
      apply (Permutation_in _ (insert_desc_perm x r)) in Hz.
      destruct Hz as [<-|Hz].
      * unfold entry_before. lia.
      * rewrite Forall_forall in Hy. now apply Hy.
Qed.

(** The sort is stable: in the sorted list an entry stands before
    another when its count is higher, or when the counts are equal and it
    stood before the other in the list sorted. *)
Lemma sort_desc_sorted (l : list (str * Z)) :
  StronglySorted (entry_earlier tokens) l ->
  StronglySorted (entry_before tokens) (sort_desc l).
Proof.
  induction 1 as [|x l Hl IH Hx]; simpl; [constructor|].
  apply insert_desc_sorted; [exact IH|].
  eapply Permutation_Forall; [|exact Hx].
  symmetry. apply sort_desc_perm.
Qed.

End Stable.

(** *** The tokens of a cleaned text *)

Lemma lower_letter (c : char) :
  is_ascii_letter c = true -> between 97 122 (lower c) = true.
Proof.
  unfold is_ascii_letter, lower. rewrite orb_true_iff.
  destruct (between 65 90 c) eqn:E.
  - intros _. apply between_spec in E. apply between_spec. lia.
  - intros [H|H]; [discriminate|exact H].
Qed.

Lemma small_letter_kept (d : char) :
  between 97 122 d = true -> in_filters d = false /\ (d =? space)%N = false.
Proof.
  rewrite between_spec. intros H. split.
  - unfold in_filters.
    rewrite (between_above 33 38), (between_above 40 47),
      (between_above 58 64), (between_above 91 96),
      (between_below 123 126) by lia.
    rewrite !(proj2 (N.eqb_neq _ _)) by lia. reflexivity.
  - apply N.eqb_neq. unfold space. lia.
Qed.

Lemma map_join_space (f : char -> char) (ws : list str) :
  f space = space -> map f (join_space ws) = join_space (map (map f) ws).
Proof.
  intros H. destruct ws as [|w ws]; [reflexivity|]. simpl.
  rewrite map_app. f_equal. induction ws as [|v ws IH]; [reflexivity|].
  simpl. rewrite map_app, H, IH. reflexivity.
Qed.

Lemma words_letters (text : str) :
  Forall (Forall (fun c => is_ascii_letter c = true))
         (words (sub_non_letters text)).
Proof.
  apply Forall_forall. intros w Hw. unfold words in Hw.
  apply filter_In in Hw. destruct Hw as [Hw _].
  pose proof (fields_pieces isspace (sub_non_letters text)) as F.
  rewrite Forall_forall in F. specialize (F w Hw).
  eapply Forall_impl; [|exact F]. simpl. intros c [Hs Hc].
  apply filter_In in Hc. destruct Hc as [_ Hc].
  now rewrite Hs, orb_false_r in Hc.
Qed.

(** On a cleaned text the tokenizer's tokens are the words of the text, in
    small letters. *)
Lemma text_to_word_sequence_clean (text : str) :
  text_to_word_sequence (clean_text text)
  = map (map lower) (words (clean_text text)).
Proof.
  rewrite clean_text_normalize. unfold normalize_spec.
  fold (sub_non_letters text).
  set (ws := words (sub_non_letters text)).
  assert (Hw : Forall is_word ws) by apply words_are_words.
  assert (Hl : Forall (Forall (fun c => is_ascii_letter c = true)) ws)
    by apply words_letters.
  rewrite words_join_space by exact Hw.
  unfold text_to_word_sequence.
  rewrite map_join_space by reflexivity.
  rewrite map_join_space by reflexivity.
  rewrite map_map.
  assert (E : map (fun w => map (fun c => if in_filters c then space else c)
                                (map lower w)) ws
              = map (map lower) ws).
  { apply map_ext_in. intros w Hin. rewrite map_map. apply map_ext_in.
    intros c Hc. rewrite Forall_forall in Hl. specialize (Hl w Hin).
    rewrite Forall_forall in Hl. specialize (Hl c Hc).
    apply lower_letter, small_letter_kept in Hl. destruct Hl as [Hf _].
    now rewrite Hf. }
  rewrite E. apply fields_join_space; [reflexivity| |].
  - apply Forall_map. eapply Forall_impl; [|exact Hw].
    intros w [Hn _]. destruct w; [discriminate|reflexivity].
  - apply Forall_map. apply Forall_forall. intros w Hin.
    apply Forall_map. rewrite Forall_forall in Hl. specialize (Hl w Hin).
    eapply Forall_impl; [|exact Hl]. simpl. intros c Hc.
    apply lower_letter, small_letter_kept in Hc. tauto.
Qed.

Lemma corpus_tokens_words (corpus : list str) :
  corpus_tokens corpus
  = flat_map (fun text => map (map lower) (words (clean_text text))) corpus.
Proof.
  unfold corpus_tokens. induction corpus as [|t corpus IH]; [reflexivity|].
  simpl. now rewrite IH, text_to_word_sequence_clean.
Qed.

(** *** The index *)

Lemma fit_word_counts (corpus : list str) (max_words : Z) :
  word_counts (fit corpus max_words)
  = map (fun w => (w, occurrences (corpus_tokens corpus) w))
        (distinct (corpus_tokens corpus)).
Proof.
  unfold fit, fit_on_texts. simpl. rewrite fold_count_words.
  apply count_words_entries.
Qed.

Lemma fit_word_index (corpus : list str) (max_words : Z) :
  word_index (fit corpus max_words)
  = combine (map fst (sort_desc (word_counts (fit corpus max_words))))
            (range1 (length (distinct (corpus_tokens corpus)))).
Proof.
  rewrite fit_word_counts. unfold fit, fit_on_texts. simpl.
  rewrite fold_count_words, count_words_entries. f_equal.
  rewrite length_map. f_equal.
  rewrite (Permutation_length (sort_desc_perm _)). apply length_map.
Qed.

Lemma get_combine_seq (voc : list str) (s : nat) (w : str) (i : Z) :
  get w (combine voc (map Z.of_nat (seq s (length voc)))) = Some i ->
  exists k, nth_error voc k = Some w /\ i = Z.of_nat (s + k).
Proof.
  revert s; induction voc as [|v voc IH]; intros s; simpl; [discriminate|].
  destruct (str_eqb v w) eqn:E.
  - apply str_eqb_eq in E. subst. intros H. inversion H. exists 0%nat.
    split; [reflexivity|]. f_equal. lia.
  - intros H. destruct (IH (S s) H) as [k [Hk Hi]]. exists (S k).
    split; [exact Hk|]. rewrite Hi. f_equal. lia.
Qed.

Lemma In_get (V : Type) (w : str) (d : list (str * V)) :
  In w (map fst d) -> exists v, get w d = Some v.
Proof.
  induction d as [|[k x] d IH]; simpl; [tauto|].
  destruct (str_eqb k w) eqn:E; [eauto|].
  apply str_eqb_neq in E. intros [H|H]; [congruence|auto].
Qed.

Lemma map_fst_combine (A B : Type) (l : list A) (r : list B) :
  length l = length r -> map fst (combine l r) = l.
Proof.
  revert r; induction l as [|a l IH]; intros [|b r] H; simpl in *;
    try discriminate; [reflexivity|].
  f_equal. apply IH. lia.
Qed.

Lemma map_snd_combine (A B : Type) (l : list A) (r : list B) :
  length l = length r -> map snd (combine l r) = r.
Proof.
  revert r; induction l as [|a l IH]; intros [|b r] H; simpl in *;
    try discriminate; [reflexivity|].
  f_equal. apply IH. lia.
Qed.

Lemma range1_length (n : nat) : length (range1 n) = n.
Proof. unfold range1. now rewrite length_map, length_seq. Qed.

Section Index.

Variable corpus : list str.
Variable max_words : Z.

Local Abbreviation tokens := (corpus_tokens corpus).
Local Abbreviation sorted :=
  (sort_desc (word_counts (fit corpus max_words))).

Lemma sorted_entries (x : str * Z) :
  In x sorted -> In (fst x) tokens /\ snd x = occurrences tokens (fst x).
Proof.
  intros H. apply (Permutation_in _ (sort_desc_perm _)) in H.
  rewrite fit_word_counts in H. apply in_map_iff in H.
  destruct H as [w [<- Hw]]. simpl. split; [|reflexivity].
  now apply In_distinct.
Qed.

Lemma sorted_length : length sorted = length (distinct tokens).
Proof.
  rewrite (Permutation_length (sort_desc_perm _)).
  rewrite fit_word_counts. apply length_map.
Qed.

Lemma sorted_keys : Permutation (map fst sorted) (distinct tokens).
Proof.
  rewrite (sort_desc_perm _), fit_word_counts.
  rewrite map_map. simpl. now rewrite map_id.
Qed.

Lemma sorted_order : StronglySorted (entry_before tokens) sorted.
Proof.
  apply sort_desc_sorted. rewrite fit_word_counts.
  apply StronglySorted_map. simpl. apply first_seen_sorted.
Qed.

Lemma word_index_sorted :
  word_index (fit corpus max_words)
  = combine (map fst sorted) (range1 (length (map fst sorted))).
Proof.
  rewrite fit_word_index, length_map, sorted_length. reflexivity.
Qed.

(** The place of an indexed token in the sorted list. *)
Lemma word_index_place (w : str) (i : Z) :
  get w (word_index (fit corpus max_words)) = Some i ->
  exists k, nth_error sorted k = Some (w, occurrences tokens w)
            /\ i = Z.of_nat (S k).
Proof.
  rewrite word_index_sorted. unfold range1. intros H.
  apply get_combine_seq in H. destruct H as [k [Hk Hi]].
  exists k. split; [|exact Hi].
  rewrite nth_error_map in Hk.
  destruct (nth_error sorted k) as [[v n]|] eqn:E; [|discriminate].
  simpl in Hk. inversion Hk; subst v.
  apply nth_error_In in E. apply sorted_entries in E. simpl in E.
  destruct E as [_ ->]. reflexivity.
Qed.

Lemma ranks_before_irrefl (w : str) : ~ ranks_before tokens w w.
Proof. unfold ranks_before. lia. Qed.

Lemma ranks_before_asym (w1 w2 : str) :
  ranks_before tokens w1 w2 -> ~ ranks_before tokens w2 w1.
Proof. unfold ranks_before. lia. Qed.

Lemma word_index_order (w1 w2 : str) (i1 i2 : Z) :
  get w1 (word_index (fit corpus max_words)) = Some i1 ->
  get w2 (word_index (fit corpus max_words)) = Some i2 ->
  ((i1 < i2)%Z <-> ranks_before tokens w1 w2).
Proof.
  intros H1 H2.
  destruct (word_index_place _ _ H1) as [k1 [E1 ->]].
  destruct (word_index_place _ _ H2) as [k2 [E2 ->]].
  assert (O : forall a b wa wb,
             nth_error sorted a = Some (wa, occurrences tokens wa) ->
             nth_error sorted b = Some (wb, occurrences tokens wb) ->
             (a < b)%nat -> ranks_before tokens wa wb).
  { intros a b wa wb Ea Eb Hab.
    exact (StronglySorted_nth_error _ _ _ _ _ _ _ sorted_order Hab Ea Eb). }
  split.
  - intros H. apply (O k1 k2 w1 w2); trivial. lia.
  - intros H. destruct (Nat.lt_trichotomy k1 k2) as [L|[L|L]]; [lia| |].
    + subst k2. rewrite E1 in E2. inversion E2; subst.
      now apply ranks_before_irrefl in H.
    + apply (O k2 k1 w2 w1) in L; trivial.
      now apply ranks_before_asym in H.
Qed.

Lemma word_index_unique (w1 w2 : str) (i : Z) :
  get w1 (word_index (fit corpus max_words)) = Some i ->
  get w2 (word_index (fit corpus max_words)) = Some i -> w1 = w2.
Proof.
  intros H1 H2.
  destruct (word_index_place _ _ H1) as [k1 [E1 I1]].
  destruct (word_index_place _ _ H2) as [k2 [E2 I2]].
  assert (k1 = k2) by lia. subst k2. rewrite E1 in E2. now inversion E2.
Qed.

Lemma word_index_keys :
  Permutation (map fst (word_index (fit corpus max_words)))
              (distinct tokens).
Proof.
  rewrite word_index_sorted, map_fst_combine
    by (now rewrite range1_length).
  apply sorted_keys.
Qed.

Lemma word_index_domain (w : str) :
  In w tokens <-> exists i, get w (word_index (fit corpus max_words)) = Some i.
Proof.
  split.
  - intros H. apply In_get.
    apply (Permutation_in _ (Permutation_sym word_index_keys)).
    now apply In_distinct.
  - intros [i H]. apply get_In in H.
    apply (in_map fst) in H. simpl in H.
    apply (Permutation_in _ word_index_keys) in H.
    exact (proj1 (In_distinct _ _) H).
Qed.

Lemma word_index_values :
  map snd (word_index (fit corpus max_words))
  = range1 (length (distinct tokens)).
Proof.
  rewrite word_index_sorted, map_snd_combine
    by (now rewrite range1_length).
  now rewrite length_map, sorted_length.
Qed.

End Index.

(** C3, amended. For every corpus and every [max_words], the fit step
    cleans each text, puts it in small letters and cuts it at white space;
    it counts every token across the whole corpus; it gives every distinct
    token of the corpus, not only [max_words] of them, an ID of its own, the
    IDs being 1, 2, ... in the order of descending frequency, tokens of one
    frequency in first-seen order. The bound acts in the transform step,
    which lets through exactly the tokens whose ID is below [max_words] (all
    of them when [max_words] is 0): the [max_words - 1] most frequent. On the
    corpus ["a a b"], ["b c"] with [max_words = 2] the IDs are a 1, b 2 and
    c 3, and of these only a is let through. *)
Theorem fit_ranks_tokens_by_frequency :
  (forall (corpus : list str) (max_words : Z),
      let tokenizer := fit corpus max_words in
      let tokens := corpus_tokens corpus in
      tokens
      = flat_map (fun text => map (map lower) (words (clean_text text))) corpus
      /\ word_counts tokenizer
         = map (fun w => (w, occurrences tokens w)) (distinct tokens)
      /\ (forall w,
             In w tokens <-> exists i, get w (word_index tokenizer) = Some i)
      /\ NoDup (map fst (word_index tokenizer))
      /\ map snd (word_index tokenizer) = range1 (length (distinct tokens))
      /\ (forall w1 w2 i,
             get w1 (word_index tokenizer) = Some i ->
             get w2 (word_index tokenizer) = Some i -> w1 = w2)
      /\ (forall w1 w2 i1 i2,
             get w1 (word_index tokenizer) = Some i1 ->
             get w2 (word_index tokenizer) = Some i2 ->
             ((i1 < i2)%Z <-> ranks_before tokens w1 w2))
      /\ (forall w i,
             In i (keep_index tokenizer w) <->
             get w (word_index tokenizer) = Some i
             /\ (max_words = 0%Z \/ (i <= max_words - 1)%Z)))
  /\ word_index (fit Sample.corpus 2)
     = [(Sample.a, 1%Z); (Sample.b, 2%Z); (Sample.c, 3%Z)]
  /\ texts_to_sequences (fit Sample.corpus 2) (map clean_text Sample.corpus)
     = [[1%Z; 1%Z]; []].
Proof.
  split; [|split; reflexivity].
  intros corpus max_words. cbv zeta.
  split; [apply corpus_tokens_words|].
  split; [apply fit_word_counts|].
  split; [apply word_index_domain|].
  split.
  { eapply Permutation_NoDup; [|apply NoDup_distinct].
    symmetry. apply word_index_keys. }
  split; [apply word_index_values|].
  split; [apply word_index_unique|].
  split; [apply word_index_order|].
  intros w i. rewrite keep_index_In.
  change (num_words (fit corpus max_words)) with max_words.
  split; intros [H [H0|H1]]; (split; [exact H|]); auto; right; lia.
Qed.

Lemma fit_ranks_tokens_by_frequency_witness :
  get Sample.a (word_index (fit Sample.corpus 2)) = Some 1%Z
  /\ get Sample.b (word_index (fit Sample.corpus 2)) = Some 2%Z
  /\ ranks_before (corpus_tokens Sample.corpus) Sample.a Sample.b.
Proof.
  assert (Ha : get Sample.a (word_index (fit Sample.corpus 2)) = Some 1%Z)
    by reflexivity.
  assert (Hb : get Sample.b (word_index (fit Sample.corpus 2)) = Some 2%Z)
    by reflexivity.
  split; [exact Ha|]. split; [exact Hb|].
  destruct (proj1 fit_ranks_tokens_by_frequency Sample.corpus 2%Z)
    as [_ [_ [_ [_ [_ [_ [Ho _]]]]]]].
  apply (proj1 (Ho Sample.a Sample.b 1%Z 2%Z Ha Hb)). lia.
Defined.

(** C3 fails as stated: with [max_words = 2] the vocabulary fitted on
    ["a a b"], ["b c"] is not made of a and b only. Its index holds three
    tokens, c among them, and the transform step lets through a alone:
    b has the ID 2, which is not below [max_words], and leaves the
    sequences. *)
Lemma max_words_two_keeps_one_token :
  map fst (word_index (fit Sample.corpus 2)) = [Sample.a; Sample.b; Sample.c]
  /\ keep_index (fit Sample.corpus 2) Sample.a = [1%Z]
  /\ keep_index (fit Sample.corpus 2) Sample.b = []
  /\ preprocess_text Sample.corpus 2 3
     = Ok ([[0%Z; 1%Z; 1%Z]; [0%Z; 0%Z; 0%Z]], fit Sample.corpus 2).
Proof. repeat split; reflexivity. Qed.

(** ** The pipeline on two records *)

(** The records [("great movie", "positive")] and [("bad film!!",
    "negative")] with [max_words = 10] and [max_len = 4]: two rows of four
    IDs and the labels 1 and 0. *)
Example two_records :
  load_data Sample.disk3 "IMDB Dataset.csv"
  = Ok ([Some (of_string "great movie"); Some (of_string "bad film!!")],
        [Some positive; Some negative])
  /\ (exists tokenizer,
         preprocess_text [of_string "great movie"; of_string "bad film!!"] 10 4
         = Ok ([[0; 0; 1; 2]; [0; 0; 3; 4]]%Z, tokenizer))
  /\ encode_labels [Some positive; Some negative] = Ok [Some 1%Z; Some 0%Z].
Proof.
  split; [reflexivity|]. split; [|reflexivity].
  eexists. reflexivity.
Qed.

(* ================================================================== *)
(** * Part III: further properties of the code                         *)
(* ================================================================== *)

(** ** The normalizer *)

(** X1. A character that is neither an ASCII letter nor white space is
    deleted, not replaced: wherever it stands in a text, [clean_text] returns
    what it returns without it, so the letters on its two sides end up in one
    word. *)
Theorem clean_text_deletes_in_place (x y : str) (c : char) :
  is_ascii_letter c = false -> isspace c = false ->
  clean_text (x ++ c :: y) = clean_text (x ++ y).
Proof.
  intros Hl Hs. unfold clean_text, sub_non_letters.
  rewrite !filter_app. simpl. now rewrite Hl, Hs.
Qed.

Lemma clean_text_deletes_in_place_witness :
  is_ascii_letter 39%N = false
  /\ isspace 39%N = false
  /\ clean_text (of_string "don" ++ 39%N :: of_string "t")
     = clean_text (of_string "don" ++ of_string "t").
Proof.
  assert (Hl : is_ascii_letter 39%N = false) by reflexivity.
  assert (Hs : isspace 39%N = false) by reflexivity.
  split; [exact Hl|]. split; [exact Hs|].
  exact (clean_text_deletes_in_place (of_string "don") (of_string "t")
                                     39%N Hl Hs).
Defined.

Lemma sub_spaces_same_space (b : bool) (u v : str) (c : char) :
  isspace c = true ->
  sub_spaces_from b (u ++ c :: v) = sub_spaces_from b (u ++ space :: v).
Proof.
  intros H. revert b; induction u as [|d u IH]; intros b; simpl.
  - now rewrite H.
  - destruct (isspace d); [destruct b|]; now rewrite IH.
Qed.

Lemma sub_spaces_run (b : bool) (u v : str) (c c' : char) :
  isspace c = true -> isspace c' = true ->
  sub_spaces_from b (u ++ c :: c' :: v) = sub_spaces_from b (u ++ c :: v).
Proof.
  intros H H'. revert b; induction u as [|d u IH]; intros b; simpl.
  - rewrite H, H'. now destruct b.
  - destruct (isspace d); [destruct b|]; now rewrite IH.
Qed.

(** X2. [clean_text] tells no white space from another and no run of white
    space from one space: a tabulation, a line end or a no-break space may be
    replaced by a space, and a white space next to another may be left out,
    without any change of the result. *)
Theorem clean_text_white_space_alike (x y : str) (c : char) :
  isspace c = true ->
  clean_text (x ++ c :: y) = clean_text (x ++ space :: y)
  /\ forall c', isspace c' = true ->
                clean_text (x ++ c :: c' :: y) = clean_text (x ++ c :: y).
Proof.
  intros H. unfold clean_text, sub_non_letters, sub_spaces. split.
  - rewrite !filter_app. simpl. rewrite H, orb_true_r.
    now rewrite (sub_spaces_same_space _ _ _ c H).
  - intros c' H'. rewrite !filter_app. simpl. rewrite H, H', !orb_true_r.
    now rewrite (sub_spaces_run _ _ _ c c' H H').
Qed.

Lemma clean_text_white_space_alike_witness :
  isspace 9%N = true
  /\ clean_text (of_string "bad" ++ 9%N :: of_string "film")
     = clean_text (of_string "bad" ++ space :: of_string "film").
Proof.
  assert (H : isspace 9%N = true) by reflexivity.
  split; [exact H|].
  exact (proj1 (clean_text_white_space_alike (of_string "bad")
                                             (of_string "film") 9%N H)).
Defined.

Lemma lstrip_length (s : str) : (length (lstrip s) <= length s)%nat.
Proof.
  induction s as [|c t IH]; simpl; [lia|].
  destruct (isspace c); simpl; lia.
Qed.

Lemma rstrip_length (s : str) : (length (rstrip s) <= length s)%nat.
Proof.
  induction s as [|c t IH]; simpl; [lia|].
  destruct (rstrip t); [destruct (isspace c)|]; simpl in *; lia.
Qed.

Lemma sub_spaces_length (b : bool) (s : str) :
  (length (sub_spaces_from b s) <= length s)%nat.
Proof.
  revert b; induction s as [|c t IH]; intros b; simpl; [lia|].
  destruct (isspace c); [destruct b|]; simpl.
  - specialize (IH true). lia.
  - specialize (IH true). lia.
  - specialize (IH false). lia.
Qed.

(** X3. [clean_text] never makes a text longer. *)
Theorem clean_text_never_longer (text : str) :
  (length (clean_text text) <= length text)%nat.
Proof.
  unfold clean_text, strip, sub_spaces, sub_non_letters.
  set (keep := fun c => is_ascii_letter c || isspace c).
  pose proof (filter_length_le keep text) as L1.
  pose proof (sub_spaces_length false (filter keep text)) as L2.
  pose proof (lstrip_length (sub_spaces_from false (filter keep text))) as L3.
  pose proof (rstrip_length
                (lstrip (sub_spaces_from false (filter keep text)))) as L4.
  lia.
Qed.

(** ** Capitals *)

Lemma lower_cases (c : char) :
  (is_ascii_letter c = true /\ is_ascii_letter (lower c) = true
   /\ isspace c = false /\ isspace (lower c) = false)
  \/ lower c = c.
Proof.
  unfold lower at 3. destruct (between 65 90 c) eqn:E; [left|now right].
  assert (L : is_ascii_letter c = true)
    by (unfold is_ascii_letter; now rewrite E).
  assert (L' : is_ascii_letter (lower c) = true).
  { unfold is_ascii_letter. rewrite (lower_letter c L). apply orb_true_r. }
  repeat split; trivial; now apply letter_not_space.
Qed.

Lemma is_ascii_letter_lower (c : char) :
  is_ascii_letter (lower c) = is_ascii_letter c.
Proof.
  destruct (lower_cases c) as [[H [H' _]]|E]; congruence.
Qed.

Lemma isspace_lower (c : char) : isspace (lower c) = isspace c.
Proof.
  destruct (lower_cases c) as [[_ [_ [H H']]]|E]; congruence.
Qed.

Lemma lower_no_capital (c : char) : between 65 90 (lower c) = false.
Proof.
  unfold lower. destruct (between 65 90 c) eqn:E; [|exact E].
  apply between_spec in E. apply between_above. lia.
Qed.

Lemma lower_lower (c : char) : lower (lower c) = lower c.
Proof. unfold lower at 1. now rewrite lower_no_capital. Qed.

Lemma sub_non_letters_lower (t : str) :
  sub_non_letters (map lower t) = map lower (sub_non_letters t).
Proof.
  unfold sub_non_letters. induction t as [|c t IH]; simpl; [reflexivity|].
  rewrite is_ascii_letter_lower, isspace_lower.
  destruct (is_ascii_letter c || isspace c); simpl; now rewrite IH.
Qed.

Lemma sub_spaces_lower (b : bool) (t : str) :
  sub_spaces_from b (map lower t) = map lower (sub_spaces_from b t).
Proof.
  revert b; induction t as [|c t IH]; intros b; simpl; [reflexivity|].
  rewrite isspace_lower.
  destruct (isspace c); [destruct b|]; simpl; now rewrite IH.
Qed.

Lemma lstrip_lower (t : str) : lstrip (map lower t) = map lower (lstrip t).
Proof.
  induction t as [|c t IH]; simpl; [reflexivity|].
  rewrite isspace_lower. now destruct (isspace c).
Qed.

Lemma rstrip_lower (t : str) : rstrip (map lower t) = map lower (rstrip t).
Proof.
  induction t as [|c t IH]; simpl; [reflexivity|].
  rewrite IH, isspace_lower.
  destruct (rstrip t); simpl; [now destruct (isspace c)|reflexivity].
Qed.

Lemma clean_text_lower (t : str) :
  clean_text (map lower t) = map lower (clean_text t).
Proof.
  unfold clean_text, strip, sub_spaces.
  now rewrite sub_non_letters_lower, sub_spaces_lower, lstrip_lower,
    rstrip_lower.
Qed.

Lemma text_to_word_sequence_lower (u : str) :
  text_to_word_sequence (map lower u) = text_to_word_sequence u.
Proof.
  unfold text_to_word_sequence. do 3 f_equal.
  rewrite map_map. apply map_ext. intros c. apply lower_lower.
Qed.

(** X4. The vectorizer does not see the case of ASCII letters: with every
    capital of every review put in small letters, [preprocess_text] returns
    the same matrix and the same tokenizer, or raises the same exception. *)
Theorem preprocess_text_ignores_case
        (reviews : list str) (max_words max_len : Z) :
  preprocess_text (map (map lower) reviews) max_words max_len
  = preprocess_text reviews max_words max_len.
Proof.
  assert (T : forall r, text_to_word_sequence (clean_text (map lower r))
                        = text_to_word_sequence (clean_text r)).
  { intros r. now rewrite clean_text_lower, text_to_word_sequence_lower. }
  assert (F : fit (map (map lower) reviews) max_words = fit reviews max_words).
  { unfold fit, fit_on_texts. simpl. rewrite !fold_count_words.
    assert (E : flat_map text_to_word_sequence
                         (map clean_text (map (map lower) reviews))
                = flat_map text_to_word_sequence (map clean_text reviews)).
    { induction reviews as [|r reviews IH]; simpl; [reflexivity|].
      now rewrite T, IH. }
    now rewrite E. }
  rewrite !preprocess_text_phases, F. unfold transform, texts_to_sequences.
  rewrite !map_map.
  assert (S : map (fun x => text_to_sequence (fit reviews max_words)
                                             (clean_text (map lower x)))
                  reviews
              = map (fun x => text_to_sequence (fit reviews max_words)
                                               (clean_text x)) reviews).
  { apply map_ext. intros r. unfold text_to_sequence. now rewrite T. }
  now rewrite S.
Qed.

(** ** Tokens *)

(** X5. Whatever the ASCII text, a token of [text_to_word_sequence] is not
    empty and holds no space, no character of the tokenizer's filters and no
    capital; it is ASCII as the text is. *)
Theorem tokens_are_clean (text w : str) :
  ascii_text text ->
  In w (text_to_word_sequence text) ->
  w <> []
  /\ Forall (fun c => c <> space /\ in_filters c = false
                      /\ between 65 90 c = false /\ (c < 128)%N) w.
Proof.
  unfold text_to_word_sequence. intros A H. apply filter_In in H.
  destruct H as [H Hn]. split; [now destruct w|].
  pose proof (fields_pieces (fun c => (c =? space)%N)
                (map (fun c => if in_filters c then space else c)
                     (map lower text))) as F.
  rewrite Forall_forall in F. specialize (F w H).
  eapply Forall_impl; [|exact F]. simpl. intros c [Hs Hc].
  apply N.eqb_neq in Hs. split; [exact Hs|].
  apply in_map_iff in Hc. destruct Hc as [d [Hd Hin]].
  apply in_map_iff in Hin. destruct Hin as [e [<- He]].
  destruct (in_filters (lower e)) eqn:Ef; [congruence|]. subst c.
  split; [exact Ef|]. split; [apply lower_no_capital|].
  unfold ascii_text in A. rewrite Forall_forall in A. specialize (A e He).
  unfold lower. destruct (between 65 90 e) eqn:E; [|exact A].
  apply between_spec in E. lia.
Qed.

Lemma tokens_are_clean_witness :
  ascii_text (of_string "It's  GOOD.")
  /\ In (of_string "it's") (text_to_word_sequence (of_string "It's  GOOD."))
  /\ of_string "it's" <> []
  /\ Forall (fun c => c <> space /\ in_filters c = false
                      /\ between 65 90 c = false /\ (c < 128)%N)
            (of_string "it's").
Proof.
  assert (A : ascii_text (of_string "It's  GOOD."))
    by (repeat constructor).
  assert (H : In (of_string "it's")
                 (text_to_word_sequence (of_string "It's  GOOD.")))
    by (left; reflexivity).
  split; [exact A|]. split; [exact H|].
  exact (tokens_are_clean (of_string "It's  GOOD.") (of_string "it's") A H).
Defined.

(** ** Fitting *)

(** X6. Fitting in two calls is fitting once on all the texts: the counts
    of the first call stay in the tokenizer, the second call adds to them,
    and the index is made anew from the sum. *)
Theorem fit_on_texts_twice (self : Tokenizer) (texts more : list str) :
  fit_on_texts (fit_on_texts self texts) more
  = fit_on_texts self (texts ++ more).
Proof.
  unfold fit_on_texts. simpl. now rewrite fold_left_app.
Qed.

Lemma total_count_word (w : str) (wc : list (str * Z)) :
  total_count (count_word w wc) = (total_count wc + 1)%Z.
Proof.
  unfold total_count. induction wc as [|[k n] wc IH]; simpl; [reflexivity|].
  destruct (str_eqb k w); simpl; lia.
Qed.

Lemma total_count_words (ws : list str) (wc : list (str * Z)) :
  total_count (count_words ws wc)
  = (total_count wc + Z.of_nat (length ws))%Z.
Proof.
  revert wc; induction ws as [|w ws IH]; intros wc; [simpl; lia|].
  unfold count_words in *. simpl fold_left. rewrite IH, total_count_word.
  simpl length. lia.
Qed.

(** X7. [fit_on_texts] counts every token once: the counts of the
    tokenizer grow by the number of tokens of the texts, so that after [fit]
    they sum to the number of tokens of the corpus, and no word is kept with
    a count below 1. *)
Theorem fit_counts_every_token :
  (forall (self : Tokenizer) (texts : list str),
      total_count (word_counts (fit_on_texts self texts))
      = (total_count (word_counts self)
         + Z.of_nat (length (flat_map text_to_word_sequence texts)))%Z)
  /\ (forall (corpus : list str) (max_words : Z),
         total_count (word_counts (fit corpus max_words))
         = Z.of_nat (length (corpus_tokens corpus))
         /\ Forall (fun entry => (1 <= snd entry)%Z)
                   (word_counts (fit corpus max_words))).
Proof.
  assert (G : forall self texts,
             total_count (word_counts (fit_on_texts self texts))
             = (total_count (word_counts self)
                + Z.of_nat (length (flat_map text_to_word_sequence texts)))%Z).
  { intros self texts. unfold fit_on_texts. simpl.
    now rewrite fold_count_words, total_count_words. }
  split; [exact G|]. intros corpus max_words. split.
  - unfold fit. rewrite G. reflexivity.
  - rewrite fit_word_counts. apply Forall_map, Forall_forall.
    intros w Hw. simpl. apply (proj1 (In_distinct _ _)) in Hw.
    apply (count_occ_In str_eq_dec) in Hw. unfold occurrences. lia.
Qed.

(** ** Tokens on their way into the sequences *)

Lemma nil_or_In (A : Type) (l : list A) : l = [] \/ exists x, In x l.
Proof. destruct l as [|x l]; [now left|right; exists x; now left]. Qed.

Lemma flat_map_nil (A B : Type) (f : A -> list B) (l : list A) :
  (forall x, In x l -> f x = []) -> flat_map f l = [].
Proof.
  induction l as [|x l IH]; simpl; intros H; [reflexivity|].
  rewrite (H x) by now left. apply IH. intros y Hy. apply H. now right.
Qed.

Lemma flat_map_singletons (A B : Type) (P : A -> B -> Prop)
      (f : A -> list B) (l : list A) :
  (forall x, In x l -> exists y, f x = [y] /\ P x y) ->
  Forall2 P l (flat_map f l).
Proof.
  induction l as [|x l IH]; simpl; intros H; [constructor|].
  destruct (H x (or_introl eq_refl)) as [y [E Hy]]. rewrite E. simpl.
  constructor; [exact Hy|]. apply IH. intros z Hz. apply H. now right.
Qed.

Lemma fit_index_bounds (corpus : list str) (max_words : Z) (w : str) (i : Z) :
  get w (word_index (fit corpus max_words)) = Some i ->
  (1 <= i <= Z.of_nat (length (distinct (corpus_tokens corpus))))%Z.
Proof.
  intros H. apply get_In in H. pose proof (in_map snd _ _ H) as H'.
  rewrite word_index_values in H'. exact (proj1 (range1_In _ i) H').
Qed.

(** X8. An ID in a sequence is a word's: whatever the text, the sequence
    [texts_to_sequences] makes of it holds IDs from 1 to the number of
    distinct tokens of the corpus only, never 0, and never more IDs than the
    text has tokens. *)
Theorem sequence_ids_in_range (corpus : list str) (max_words : Z) (text : str) :
  Forall (fun i =>
            (1 <= i <= Z.of_nat (length (distinct (corpus_tokens corpus))))%Z)
         (text_to_sequence (fit corpus max_words) text)
  /\ (length (text_to_sequence (fit corpus max_words) text)
      <= length (text_to_word_sequence text))%nat.
Proof.
  split.
  - apply Forall_forall. intros i Hi. unfold text_to_sequence in Hi.
    apply in_flat_map in Hi. destruct Hi as [w [_ Hw]].
    apply keep_index_In in Hw. destruct Hw as [Hg _].
    eapply fit_index_bounds; eauto.
  - unfold text_to_sequence.
    induction (text_to_word_sequence text) as [|w ws IH]; simpl; [lia|].
    rewrite length_app.
    assert (length (keep_index (fit corpus max_words) w) <= 1)%nat.
    { unfold keep_index. destruct (get _ _); [|simpl; lia].
      match goal with |- context [if ?c then _ else _] => destruct c end;
        simpl; lia. }
    lia.
Qed.

(** X9. An ASCII text whose tokens the corpus does not hold leaves no
    trace: each of its tokens is dropped without an error, its sequence is
    empty, and its row is the row of zeros a text without a token has. *)
Theorem unseen_tokens_are_dropped
        (corpus : list str) (max_words max_len : Z) (text : str) :
  ascii_text text ->
  Forall (fun w => ~ In w (corpus_tokens corpus))
         (text_to_word_sequence text) ->
  (0 <= max_len)%Z ->
  text_to_sequence (fit corpus max_words) text = []
  /\ transform (fit corpus max_words) max_len [text]
     = Ok [repeat 0%Z (Z.to_nat max_len)].
Proof.
  intros _ H Hl.
  assert (E : text_to_sequence (fit corpus max_words) text = []).
  { unfold text_to_sequence. apply flat_map_nil. intros w Hw.
    rewrite Forall_forall in H. specialize (H w Hw).
    unfold keep_index.
    destruct (get w (word_index (fit corpus max_words))) as [i|] eqn:G;
      [|reflexivity].
    exfalso. apply H. apply word_index_domain with (max_words := max_words).
    now exists i. }
  split; [exact E|].
  unfold transform, texts_to_sequences, pad_sequences. simpl. rewrite E.
  assert (L : (max_len <? 0)%Z = false) by (apply Z.ltb_ge; lia).
  now rewrite L.
Qed.

Lemma unseen_tokens_are_dropped_witness :
  ascii_text Sample.good_good_movie
  /\ Forall (fun w => ~ In w (corpus_tokens Sample.corpus))
            (text_to_word_sequence Sample.good_good_movie)
  /\ (0 <= 3)%Z
  /\ text_to_sequence (fit Sample.corpus 10) Sample.good_good_movie = []
  /\ transform (fit Sample.corpus 10) 3 [Sample.good_good_movie]
     = Ok [[0%Z; 0%Z; 0%Z]].
Proof.
  assert (A : ascii_text Sample.good_good_movie) by (repeat constructor).
  assert (H : Forall (fun w => ~ In w (corpus_tokens Sample.corpus))
                     (text_to_word_sequence Sample.good_good_movie)).
  { repeat constructor; intros H; simpl in H;
      repeat (destruct H as [H|H]; [discriminate|]); exact H. }
  assert (Hl : (0 <= 3)%Z) by lia.
  split; [exact A|]. split; [exact H|]. split; [exact Hl|].
  exact (unseen_tokens_are_dropped Sample.corpus 10 3
                                   Sample.good_good_movie A H Hl).
Defined.

(** X10. When the vocabulary fits under the bound, that is when
    [max_words] is 0 or above the number of distinct tokens of the corpus, no
    token of a review of the corpus is dropped: the sequence of the review
    holds, token by token and in order, the ID the index gives the token. *)
Theorem fitting_vocabulary_keeps_every_token
        (corpus : list str) (max_words : Z) (review : str) :
  max_words = 0%Z
  \/ (Z.of_nat (length (distinct (corpus_tokens corpus))) < max_words)%Z ->
  In review corpus ->
  Forall2 (fun w i => get w (word_index (fit corpus max_words)) = Some i)
          (text_to_word_sequence (clean_text review))
          (text_to_sequence (fit corpus max_words) (clean_text review)).
Proof.
  intros Hm Hr. unfold text_to_sequence. apply flat_map_singletons.
  intros w Hw.
  assert (Hin : In w (corpus_tokens corpus)).
  { unfold corpus_tokens. apply in_flat_map. exists (clean_text review).
    split; [now apply in_map|exact Hw]. }
  apply (word_index_domain corpus max_words) in Hin.
  destruct Hin as [i Hi]. exists i. split; [|exact Hi].
  pose proof (fit_index_bounds _ _ _ _ Hi) as B.
  unfold keep_index. rewrite Hi.
  change (num_words (fit corpus max_words)) with max_words.
  destruct Hm as [->|Hm]; [reflexivity|].
  destruct (Z.leb_spec max_words i); [lia|].
  now rewrite andb_false_r.
Qed.

Lemma fitting_vocabulary_keeps_every_token_witness :
  (Z.of_nat (length (distinct (corpus_tokens Sample.corpus))) < 4)%Z
  /\ In Sample.b_c Sample.corpus
  /\ Forall2 (fun w i => get w (word_index (fit Sample.corpus 4)) = Some i)
             (text_to_word_sequence (clean_text Sample.b_c))
             (text_to_sequence (fit Sample.corpus 4) (clean_text Sample.b_c)).
Proof.
  assert (Hm : (Z.of_nat (length (distinct (corpus_tokens Sample.corpus)))
                < 4)%Z) by (vm_compute; reflexivity).
  assert (Hr : In Sample.b_c Sample.corpus) by (right; left; reflexivity).
  split; [exact Hm|]. split; [exact Hr|].
  exact (fitting_vocabulary_keeps_every_token Sample.corpus 4 Sample.b_c
                                              (or_intror Hm) Hr).
Defined.

(** ** The bound at its lowest *)

Lemma pad_sequences_empty_rows (A : Type) (l : list A) (max_len : Z) :
  (0 <= max_len)%Z ->
  pad_sequences (map (fun _ => []) l) max_len
  = Ok (map (fun _ => repeat 0%Z (Z.to_nat max_len)) l).
Proof.
  intros H. unfold pad_sequences.
  assert (L : (max_len <? 0)%Z = false) by (apply Z.ltb_ge; lia).
  rewrite L. induction l as [|x l IH]; simpl; [reflexivity|].
  now rewrite IH.
Qed.

(** X11. A bound of 1, or a negative one, keeps no word at all: every
    index is at least 1, so every one is held back, and for every [max_len]
    from 0 on [preprocess_text] returns one row of zeros for each review. *)
Theorem max_words_one_keeps_nothing
        (reviews : list str) (max_words max_len : Z) :
  max_words <> 0%Z -> (max_words <= 1)%Z -> (0 <= max_len)%Z ->
  preprocess_text reviews max_words max_len
  = Ok (map (fun _ => repeat 0%Z (Z.to_nat max_len)) reviews,
        fit reviews max_words).
Proof.
  intros H0 H1 Hl.
  assert (E : forall text,
             text_to_sequence (fit reviews max_words) text = []).
  { intros text. unfold text_to_sequence. apply flat_map_nil. intros w _.
    destruct (nil_or_In _ (keep_index (fit reviews max_words) w))
      as [N|[i Hi]]; [exact N|].
    apply keep_index_In in Hi. destruct Hi as [Hg Hb].
    apply fit_index_bounds in Hg.
    change (num_words (fit reviews max_words)) with max_words in Hb. lia. }
  rewrite preprocess_text_phases. unfold transform, texts_to_sequences.
  rewrite map_map.
  rewrite (map_ext _ (fun _ => []) (fun r => E (clean_text r))).
  now rewrite pad_sequences_empty_rows.
Qed.

Lemma max_words_one_keeps_nothing_witness :
  1%Z <> 0%Z /\ (1 <= 1)%Z /\ (0 <= 2)%Z
  /\ preprocess_text Sample.corpus 1 2
     = Ok ([[0%Z; 0%Z]; [0%Z; 0%Z]], fit Sample.corpus 1).
Proof.
  assert (H0 : 1%Z <> 0%Z) by discriminate.
  assert (H1 : (1 <= 1)%Z) by lia.
  assert (Hl : (0 <= 2)%Z) by lia.
  repeat (split; [assumption|]).
  exact (max_words_one_keeps_nothing Sample.corpus 1 2 H0 H1 Hl).
Defined.

(** ** When the vectorizer fails *)

Lemma pad_row_zero (s : list Z) :
  pad_row 0 s = if (length s <=? 1)%nat then Ok [] else Raise ValueError.
Proof.
  destruct s as [|a [|b r]]; [reflexivity|reflexivity|].
  unfold pad_row, slice_from, assign_from, slice_start.
  change (- 0)%Z with 0%Z. change (0 <? 0)%Z with false.
  rewrite Z.min_l by lia. change (Z.to_nat 0) with 0%nat.
  rewrite skipn_0. simpl repeat. simpl (length []).
  set (n := Z.of_nat (length (a :: b :: r))).
  assert (Hn : (2 <= n)%Z) by (unfold n; simpl length; lia).
  assert (E1 : (- n <? 0)%Z = true) by (apply Z.ltb_lt; lia).
  rewrite E1.
  assert (E2 : (n =? Z.of_nat 0 - Z.max 0 (- n + Z.of_nat 0))%Z = false)
    by (apply Z.eqb_neq; lia).
  rewrite E2. reflexivity.
Qed.

Lemma forallb_of_map (A B : Type) (f : B -> bool) (g : A -> B) (l : list A) :
  forallb f (map g l) = forallb (fun x => f (g x)) l.
Proof.
  induction l as [|x l IH]; simpl; [reflexivity|]. now rewrite IH.
Qed.

Lemma mapM_pad_row_zero (seqs : list (list Z)) :
  mapM (pad_row 0) seqs
  = if forallb (fun s => (length s <=? 1)%nat) seqs
    then Ok (map (fun _ => []) seqs)
    else Raise ValueError.
Proof.
  induction seqs as [|s seqs IH]; simpl; [reflexivity|].
  rewrite pad_row_zero. destruct (length s <=? 1)%nat; simpl; [|reflexivity].
  rewrite IH. now destruct (forallb _ seqs).
Qed.

(** X12. [preprocess_text] fails in two cases and no other: [max_len] is
    negative, or [max_len] is 0 and the sequence of some review has two IDs
    or more. The exception is [ValueError] in both; for every [max_len] from
    1 on nothing is raised, whatever the reviews and [max_words]. *)
Theorem preprocess_text_fails_exactly_when
        (reviews : list str) (max_words max_len : Z) (e : exn) :
  preprocess_text reviews max_words max_len = Raise e
  <-> e = ValueError
      /\ ((max_len < 0)%Z
          \/ (max_len = 0%Z
              /\ Exists
                   (fun review =>
                      (2 <= length (text_to_sequence (fit reviews max_words)
                                                     (clean_text review)))%nat)
                   reviews)).
Proof.
  destruct (Z.lt_trichotomy max_len 0) as [L|[L|L]].
  - rewrite preprocess_text_phases. unfold transform, pad_sequences.
    rewrite (proj2 (Z.ltb_lt _ _) L). simpl.
    split; [intros H; inversion H; auto|]. now intros [-> _].
  - subst max_len. rewrite preprocess_text_phases.
    unfold transform, pad_sequences. simpl (0 <? 0)%Z. cbv iota.
    rewrite mapM_pad_row_zero. unfold texts_to_sequences.
    rewrite map_map, forallb_of_map.
    match goal with |- context [forallb ?f reviews] =>
      destruct (forallb f reviews) eqn:F end; simpl.
    + split; [discriminate|]. intros [_ [H|[_ H]]]; [lia|].
      exfalso. rewrite forallb_forall in F. apply Exists_exists in H.
      destruct H as [r [Hr Hlen]]. specialize (F r Hr).
      apply Nat.leb_le in F. lia.
    + split; [intros H; inversion H; split; [reflexivity|right]|now intros [-> _]].
      split; [reflexivity|]. apply Exists_exists.
      destruct (forallb_forall
                  (fun r => (length (text_to_sequence (fit reviews max_words)
                                                      (clean_text r)) <=? 1)%nat)
                  reviews) as [_ B].
      destruct (Exists_dec
                  (fun r => (2 <= length (text_to_sequence
                                            (fit reviews max_words)
                                            (clean_text r)))%nat)
                  reviews) as [X|X].
      * intros r. apply le_dec.
      * now apply Exists_exists in X.
      * exfalso. rewrite B in F; [discriminate|]. intros r Hr.
        apply Nat.leb_le.
        destruct (le_dec (length (text_to_sequence (fit reviews max_words)
                                                   (clean_text r))) 1);
          [assumption|].
        exfalso. apply X. apply Exists_exists. exists r. split; [exact Hr|lia].
  - rewrite preprocess_text_pre_pad by lia.
    split; [discriminate|]. intros [_ [H|[H _]]]; lia.
Qed.

(** ** The series of the ingestor *)

Lemma load_data_series (read_csv : string -> result DataFrame)
      (path : string) (df : DataFrame) (reviews sentiments : list cell) :
  read_csv path = Ok df -> rectangular df ->
  load_data read_csv path = Ok (reviews, sentiments) ->
  length reviews = length sentiments
  /\ (length reviews <= length (rows df))%nat
  /\ Forall (fun c => notna c = true) reviews
  /\ Forall (fun c => notna c = true) sentiments.
Proof.
  intros H Hrect. unfold load_data. rewrite H. simpl. unfold getitem. simpl.
  destruct (index_of "review" (columns df)) as [i|] eqn:Hi; [|discriminate].
  simpl.
  destruct (index_of "sentiment" (columns df)) as [j|] eqn:Hj; [|discriminate].
  simpl. intros E. inversion E; subst; clear E.
  rewrite !length_map. split; [reflexivity|].
  split; [apply filter_length_le|].
  assert (C : forall k name, index_of name (columns df) = Some k ->
                Forall (fun c => notna c = true)
                       (map (fun r => nth k r None)
                            (filter (forallb notna) (rows df)))).
  { intros k name Hk. apply Forall_map, Forall_forall. intros r Hr.
    apply filter_In in Hr. destruct Hr as [Hin Hc].
    unfold rectangular in Hrect. rewrite Forall_forall in Hrect.
    apply complete_row_cell; [exact Hc|]. rewrite (Hrect r Hin).
    eapply index_of_lt; eauto. }
  split; eapply C; eauto.
Qed.

(** X13. What [load_data] returns is ready for the two consumers: the
    series of reviews and the series of labels have one length, at most the
    number of rows parsed, and neither holds a missing value. *)
Theorem load_data_gives_complete_aligned_series
        (read_csv : string -> result DataFrame) (path : string)
        (df : DataFrame) (reviews sentiments : list cell) :
  read_csv path = Ok df -> rectangular df ->
  load_data read_csv path = Ok (reviews, sentiments) ->
  length reviews = length sentiments
  /\ (length reviews <= length (rows df))%nat
  /\ (forall i, (i < length reviews)%nat ->
                (exists text, nth_error reviews i = Some (Some text))
                /\ (exists label, nth_error sentiments i = Some (Some label))).
Proof.
  intros H Hrect E.
  destruct (load_data_series _ _ _ _ _ H Hrect E) as [L [B [Fr Fs]]].
  split; [exact L|]. split; [exact B|]. intros i Hi.
  assert (P : forall l : list cell,
             Forall (fun c => notna c = true) l -> (i < length l)%nat ->
             exists x, nth_error l i = Some (Some x)).
  { intros l Fl Hl. destruct (nth_error l i) as [c|] eqn:N.
    - rewrite Forall_forall in Fl. apply nth_error_In in N.
      specialize (Fl c N). destruct c as [x|]; [eauto|discriminate].
    - apply nth_error_None in N. lia. }
  split; apply P; trivial. lia.
Qed.

Lemma load_data_gives_complete_aligned_series_witness :
  Sample.disk3 "IMDB Dataset.csv" = Ok Sample.three_lines
  /\ rectangular Sample.three_lines
  /\ length [Some (of_string "great movie"); Some (of_string "bad film!!")]
     = length [Some positive; Some negative]
  /\ (2 <= length (rows Sample.three_lines))%nat.
Proof.
  assert (H : Sample.disk3 "IMDB Dataset.csv" = Ok Sample.three_lines)
    by reflexivity.
  assert (R : rectangular Sample.three_lines) by (repeat constructor).
  split; [exact H|]. split; [exact R|].
  destruct (load_data_gives_complete_aligned_series
              Sample.disk3 "IMDB Dataset.csv" Sample.three_lines
              [Some (of_string "great movie"); Some (of_string "bad film!!")]
              [Some positive; Some negative] H R eq_refl) as [L [B _]].
  split; [exact L|exact B].
Defined.

(** ** Labels back from their codes *)

Lemma positive_not_negative : positive <> negative.
Proof. discriminate. Qed.

Ltac codes :=
  repeat split; intros; try discriminate; try congruence;
  try (exfalso; apply positive_not_negative; congruence);
  try match goal with
      | H : Some (Some _) = Some (Some ?v) |- ?v = _ \/ _ =>
          inversion H; auto
      end.

(** X14. The codes tell the labels: an entry of [encode_labels] is 1
    exactly where the label is ["positive"], letter for letter, 0 exactly
    where it is ["negative"], and missing everywhere else; no other value
    comes out. *)
Theorem encode_labels_codes_tell_labels
        (sentiments : list cell) (labels : list (option Z)) (i : nat) :
  encode_labels sentiments = Ok labels ->
  (nth_error labels i = Some (Some 1%Z)
   <-> nth_error sentiments i = Some (Some positive))
  /\ (nth_error labels i = Some (Some 0%Z)
      <-> nth_error sentiments i = Some (Some negative))
  /\ (forall v, nth_error labels i = Some (Some v) -> v = 1%Z \/ v = 0%Z).
Proof.
  intros E.
  assert (L : labels
              = Series_map [(positive, 1%Z); (negative, 0%Z)] sentiments)
    by (unfold encode_labels in E; congruence).
  subst labels. unfold Series_map. rewrite !nth_error_map.
  unfold cell in *.
  destruct (nth_error sentiments i) as [[label|]|]; simpl; [|codes|codes].
  destruct (str_eqb positive label) eqn:Ep.
  - apply str_eqb_eq in Ep. subst label. codes.
  - destruct (str_eqb negative label) eqn:En.
    + apply str_eqb_eq in En. subst label. codes.
    + apply str_eqb_neq in Ep, En. codes.
Qed.

Lemma encode_labels_codes_tell_labels_witness :
  encode_labels [Some positive; Some Sample.neutral] = Ok [Some 1%Z; None]
  /\ (nth_error [Some 1%Z; None] 0 = Some (Some 1%Z)
      <-> nth_error [Some positive; Some Sample.neutral] 0
          = Some (Some positive)).
Proof.
  assert (E : encode_labels [Some positive; Some Sample.neutral]
              = Ok [Some 1%Z; None]) by reflexivity.
  split; [exact E|].
  exact (proj1 (encode_labels_codes_tell_labels
                  [Some positive; Some Sample.neutral] [Some 1%Z; None]
                  0%nat E)).
Defined.

(** ** The order of the reviews *)

Lemma flat_map_perm (A B : Type) (f : A -> list B) (l l' : list A) :
  Permutation l l' -> Permutation (flat_map f l) (flat_map f l').
Proof.
  induction 1 as [|x l l' _ IH|x y l|l l' l'' _ IH1 _ IH2]; simpl.
  - constructor.
  - now apply Permutation_app_head.
  - rewrite !app_assoc. apply Permutation_app_tail, Permutation_app_comm.
  - now transitivity (flat_map f l').
Qed.

Lemma get_entries (f : str -> Z) (ks : list str) (w : str) :
  get w (map (fun v => (v, f v)) ks)
  = if in_dec str_eq_dec w ks then Some (f w) else None.
Proof.
  induction ks as [|k ks IH]; simpl; [reflexivity|].
  destruct (str_eqb k w) eqn:E.
  - apply str_eqb_eq in E. subst k.
    destruct (str_eq_dec w w); [reflexivity|congruence].
  - apply str_eqb_neq in E. rewrite IH.
    destruct (str_eq_dec k w); [congruence|].
    now destruct (in_dec str_eq_dec w ks).
Qed.

(** X15. The counts do not depend on the order of the reviews: for every
    corpus and every rearrangement of it, [fit] counts every word the same
    number of times, the number of its occurrences in the corpus, and knows
    the same words. *)
Theorem fit_counts_ignore_review_order
        (corpus corpus' : list str) (max_words : Z) (w : str) :
  Permutation corpus corpus' ->
  get w (word_counts (fit corpus max_words))
  = get w (word_counts (fit corpus' max_words))
  /\ (In w (corpus_tokens corpus) ->
      get w (word_counts (fit corpus max_words))
      = Some (occurrences (corpus_tokens corpus) w)).
Proof.
  intros P.
  assert (T : Permutation (corpus_tokens corpus) (corpus_tokens corpus')).
  { unfold corpus_tokens. now apply flat_map_perm, Permutation_map. }
  rewrite !fit_word_counts, !get_entries.
  assert (O : occurrences (corpus_tokens corpus) w
              = occurrences (corpus_tokens corpus') w).
  { unfold occurrences. f_equal.
    now apply (proj1 (Permutation_count_occ str_eq_dec _ _) T). }
  split.
  - destruct (in_dec str_eq_dec w (distinct (corpus_tokens corpus)))
      as [I|I];
      destruct (in_dec str_eq_dec w (distinct (corpus_tokens corpus')))
      as [I'|I']; try reflexivity; try (now rewrite O); exfalso.
    + apply I'. apply In_distinct. apply (Permutation_in _ T).
      exact (proj1 (In_distinct _ _) I).
    + apply I. apply In_distinct. apply (Permutation_in _ (Permutation_sym T)).
      exact (proj1 (In_distinct _ _) I').
  - intros Hin.
    destruct (in_dec str_eq_dec w (distinct (corpus_tokens corpus)))
      as [I|I]; [reflexivity|].
    exfalso. apply I. now apply In_distinct.
Qed.

Lemma fit_counts_ignore_review_order_witness :
  Permutation [Sample.a_a_b; Sample.b_c] [Sample.b_c; Sample.a_a_b]
  /\ get Sample.b (word_counts (fit [Sample.a_a_b; Sample.b_c] 2))
     = get Sample.b (word_counts (fit [Sample.b_c; Sample.a_a_b] 2)).
Proof.
  assert (P : Permutation [Sample.a_a_b; Sample.b_c]
                          [Sample.b_c; Sample.a_a_b]) by apply perm_swap.
  split; [exact P|].
  exact (proj1 (fit_counts_ignore_review_order
                  [Sample.a_a_b; Sample.b_c] [Sample.b_c; Sample.a_a_b]
                  2 Sample.b P)).
Defined.

(** ** Padding undone *)

Lemma drop_zeros_repeat (n : nat) (l : list Z) :
  drop_zeros (repeat 0%Z n ++ l) = drop_zeros l.
Proof. induction n as [|n IH]; simpl; [reflexivity|exact IH]. Qed.

Lemma drop_zeros_positive (l : list Z) :
  Forall (fun i => (1 <= i)%Z) l -> drop_zeros l = l.
Proof.
  destruct 1 as [|x l Hx _]; simpl; [reflexivity|].
  destruct (Z.eqb_spec x 0); [lia|reflexivity].
Qed.

(** X17. Padding loses nothing of a sequence that fits: for every
    [max_len] from 1 on and every text whose sequence has at most [max_len]
    IDs, the row of the text is zeros followed by the sequence, and since no
    ID is 0, the sequence is the row without the zeros in front of it. *)
Theorem padding_can_be_undone
        (corpus : list str) (max_words max_len : Z) (text : str) :
  (1 <= max_len)%Z ->
  (Z.of_nat (length (text_to_sequence (fit corpus max_words) text))
   <= max_len)%Z ->
  exists row,
    transform (fit corpus max_words) max_len [text] = Ok [row]
    /\ Z.of_nat (length row) = max_len
    /\ drop_zeros row = text_to_sequence (fit corpus max_words) text.
Proof.
  intros Hl Hs.
  exists (pre_pad max_len (text_to_sequence (fit corpus max_words) text)).
  split; [now rewrite transform_pre_pad|].
  split; [apply pre_pad_length; lia|].
  unfold pre_pad.
  set (ids := text_to_sequence (fit corpus max_words) text) in *.
  replace (length ids - Z.to_nat max_len)%nat with 0%nat by lia.
  rewrite skipn_0, drop_zeros_repeat. apply drop_zeros_positive.
  assert (F : Forall (fun i => (1 <= i)%Z) ids).
  { apply Forall_forall. intros i Hi. unfold ids, text_to_sequence in Hi.
    apply in_flat_map in Hi. destruct Hi as [w [_ Hw]].
    apply keep_index_In in Hw. destruct Hw as [Hg _].
    apply fit_index_bounds in Hg. lia. }
  exact F.
Qed.

Lemma padding_can_be_undone_witness :
  (1 <= 4)%Z
  /\ (Z.of_nat (length (text_to_sequence (fit Sample.corpus 10) Sample.a_a_b))
      <= 4)%Z
  /\ exists row,
      transform (fit Sample.corpus 10) 4 [Sample.a_a_b] = Ok [row]
      /\ Z.of_nat (length row) = 4%Z
      /\ drop_zeros row = text_to_sequence (fit Sample.corpus 10) Sample.a_a_b.
Proof.
  assert (Hl : (1 <= 4)%Z) by lia.
  assert (Hs : (Z.of_nat (length (text_to_sequence (fit Sample.corpus 10)
                                                   Sample.a_a_b)) <= 4)%Z)
    by (vm_compute; discriminate).
  split; [exact Hl|]. split; [exact Hs|].
  exact (padding_can_be_undone Sample.corpus 10 4 Sample.a_a_b Hl Hs).
Defined.
